(** * Weighted least-squares estimation of Tudat's [linear_algebra] namespace

    Shallow embedding of
    [Tudat/Mathematics/BasicMathematics/linearAlgebra.cpp] (the least-squares
    part, lines 110-258) together with the properties of its specification.

    - Scalars ([double] in the source) are an abstract type with the
      operations the source uses ([Scalar]); algebraic laws are never assumed
      silently: a theorem that needs one takes it as a hypothesis.
    - [Eigen::MatrixXd] is a record of its two dimensions and its
      column-major storage; [Eigen::VectorXd] is a list.  Every Eigen
      operation is written with the size assertion Eigen makes
      ([eigen_assert]): a failed assertion ends the call with a [Fail].
    - The factorisations of Eigen ([jacobiSvd], [inverse]) are external to
      the repository and are taken through the interface [EigenBackend].
    - [std::cerr] is a list of diagnostics threaded through the functions
      that write to it ([Eff]). *)

From stdpp Require Import base option list.
From Stdlib Require Import ZArith.

Set Default Proof Using "Type".

(** ** Outcomes of a call *)

(** The two assertions of Eigen the code can run into. *)
Inductive eigen_error : Type :=
| DimensionMismatch   (* sizes of the operands of an operation disagree *)
| IndexOutOfRange.    (* coefficient or block outside the object *)

Inductive outcome (A : Type) : Type :=
| Ok (a : A)
| Fail (e : eigen_error).
Arguments Ok {A} a.
Arguments Fail {A} e.

Global Instance outcome_ret : MRet outcome := λ A a, Ok a.
Global Instance outcome_bind : MBind outcome := λ A B f m,
  match m with
  | Ok a => f a
  | Fail e => Fail e
  end.
Global Instance outcome_fmap : FMap outcome := λ A B f m,
  match m with
  | Ok a => Ok (f a)
  | Fail e => Fail e
  end.

(** [eigen_assert(P)] with the error raised when [P] fails. *)
Definition eigen_assert (P : Prop) `{Decision P} (e : eigen_error) : outcome unit :=
  if decide P then Ok () else Fail e.

(** [for( unsigned int i = 0; i < n; i++ ) body], threading the state the
    body updates.  Sizes are natural numbers: the counter is not taken to
    wrap, which is the source's behaviour for every size below [2^32]. *)
Fixpoint for_each {S : Type} (body : nat → S → outcome S) (indices : list nat) (s : S) : outcome S :=
  match indices with
  | [] => Ok s
  | i :: rest =>
      match body i s with
      | Ok s' => for_each body rest s'
      | Fail e => Fail e
      end
  end.

Definition for_loop {S : Type} (n : nat) (body : nat → S → outcome S) (s : S) : outcome S :=
  for_each body (seq 0 n) s.

(** ** Scalars *)

(** The operations on [double] used by the source. *)
Class Scalar (R : Type) : Type := {
  fzero : R;                 (* 0.0 *)
  fone : R;                  (* 1.0 *)
  fadd : R → R → R;
  fmul : R → R → R;
  fdiv : R → R → R;
  fpow : R → R → R;          (* std::pow *)
  fgt : R → R → bool         (* operator> *)
}.

(** ** Dense matrices and vectors *)

(** [Eigen::VectorXd]: the list of its coefficients. *)
Abbreviation vector := list (only parsing).

Section Dense.
Context {R : Type} `{Scalar R}.

(** [Eigen::MatrixXd]: [data] is the column-major storage, one list per
    column. *)
Record matrix : Type := Matrix {
  rows : nat;
  cols : nat;
  data : list (list R)
}.

(** Reading a coefficient of a stored object. *)
Definition coeff (M : matrix) (i j : nat) : R :=
  default fzero (data M !! j ≫= (.!! i)).

Definition vcoeff (v : vector R) (i : nat) : R :=
  default fzero (v !! i).

(** An [r] x [c] matrix given coefficient by coefficient. *)
Definition mk_matrix (r c : nat) (f : nat → nat → R) : matrix :=
  Matrix r c ((λ j, (λ i, f i j) <$> seq 0 r) <$> seq 0 c).

Definition mk_vector (n : nat) (f : nat → R) : vector R :=
  f <$> seq 0 n.

(** [MatrixXd::Zero( r, c )], [VectorXd::Zero( n )] and
    [VectorXd::Constant( n, 1, x )]. *)
Definition Zero (r c : nat) : matrix := mk_matrix r c (λ _ _, fzero).
Definition ZeroVector (n : nat) : vector R := replicate n fzero.
Definition Constant (n : nat) (x : R) : vector R := replicate n x.

(** [v( i )]: checked coefficient access. *)
Definition vector_at (v : vector R) (i : nat) : outcome R :=
  match v !! i with
  | Some x => Ok x
  | None => Fail IndexOutOfRange
  end.

(** [M( i, j ) = x]. *)
Definition set_coeff (M : matrix) (i j : nat) (x : R) : outcome matrix :=
  _ ← eigen_assert (i < rows M ∧ j < cols M) IndexOutOfRange;
  Ok (Matrix (rows M) (cols M) (alter (λ column, <[i:=x]> column) j (data M))).

(** [M.block( 0, j, M.rows( ), 1 )] read as a vector. *)
Definition block_column (M : matrix) (j : nat) : outcome (vector R) :=
  _ ← eigen_assert (j < cols M) IndexOutOfRange;
  Ok (mk_vector (rows M) (λ i, coeff M i j)).

(** [M.block( 0, j, M.rows( ), 1 ) = v]: a block cannot be resized. *)
Definition assign_block_column (M : matrix) (j : nat) (v : vector R) : outcome matrix :=
  _ ← eigen_assert (j < cols M) IndexOutOfRange;
  _ ← eigen_assert (length v = rows M) DimensionMismatch;
  Ok (Matrix (rows M) (cols M) (<[j:=v]> (data M))).

(** [u.cwiseProduct( v )]. *)
Definition cwiseProduct (u v : vector R) : outcome (vector R) :=
  _ ← eigen_assert (length u = length v) DimensionMismatch;
  Ok (zip_with fmul u v).

(** [M.transpose( )]. *)
Definition transpose (M : matrix) : matrix :=
  mk_matrix (cols M) (rows M) (λ i j, coeff M j i).

(** The sum of the [n] products [f k * g k]. *)
Definition dot (n : nat) (f g : nat → R) : R :=
  foldl (λ acc k, fadd acc (fmul (f k) (g k))) fzero (seq 0 n).

(** [A * B] for two matrices. *)
Definition mmul (A B : matrix) : outcome matrix :=
  _ ← eigen_assert (cols A = rows B) DimensionMismatch;
  Ok (mk_matrix (rows A) (cols B)
        (λ i j, dot (cols A) (λ k, coeff A i k) (λ k, coeff B k j))).

(** [A * v] for a matrix and a vector. *)
Definition mvmul (A : matrix) (v : vector R) : outcome (vector R) :=
  _ ← eigen_assert (cols A = length v) DimensionMismatch;
  Ok (mk_vector (rows A) (λ i, dot (cols A) (λ k, coeff A i k) (vcoeff v))).

(** [A + B]. *)
Definition madd (A B : matrix) : outcome matrix :=
  _ ← eigen_assert (rows A = rows B ∧ cols A = cols B) DimensionMismatch;
  Ok (mk_matrix (rows A) (cols A) (λ i j, fadd (coeff A i j) (coeff B i j))).

(** [w.asDiagonal( )] materialised: the square matrix with [w] on its
    diagonal. *)
Definition asDiagonal (w : vector R) : matrix :=
  mk_matrix (length w) (length w) (λ i j, if decide (i = j) then vcoeff w i else fzero).

(** ** [multiplyInformationMatrixByDiagonalWeightMatrix] (lines 144-157) *)

Definition multiplyInformationMatrixByDiagonalWeightMatrix
    (informationMatrix : matrix) (diagonalOfWeightMatrix : vector R) : outcome matrix :=
  let weightedInformationMatrix :=
    Zero (rows informationMatrix) (cols informationMatrix) in
  for_loop (cols informationMatrix)
    (λ i weightedInformationMatrix,
       column ← block_column informationMatrix i;
       scaled ← cwiseProduct column diagonalOfWeightMatrix;
       assign_block_column weightedInformationMatrix i scaled)
    weightedInformationMatrix.

End Dense.

Arguments matrix R : clear implicits.
Arguments dot {R _} n f g : simpl never.

(** ** The factorisations of Eigen *)

(** What the source takes from [Eigen/SVD] and [Eigen/LU].  The shape of
    every result is fixed by the embedding below, as Eigen fixes it from the
    shape of the factorised matrix; the backend supplies the numbers. *)
Class EigenBackend (R : Type) : Type := {
  (* k-th entry of [M.jacobiSvd( ... ).singularValues( )] *)
  jacobi_singular_value : matrix R → nat → R;
  (* [M.jacobiSvd( ComputeThinU | ComputeThinV ).solve( b )] *)
  jacobi_solve : matrix R → vector R → vector R;
  (* coefficients of [M.inverse( )], computed by [PartialPivLU] whether or
     not [M] is invertible *)
  lu_inverse : matrix R → matrix R
}.

(** The default arguments [checkConditionNumber] and
    [maximumAllowedConditionNumber] of the overload of
    [performLeastSquaresAdjustmentFromInformationMatrix] without weights.
    They are declared in [linearAlgebra.h], which is not among the sources,
    and are taken as parameters (the other overloads have [1] and [1.0E8] in
    [leastSquaresEstimation.h]). *)
Class AdjustmentDefaults (R : Type) : Type := {
  defaultCheckConditionNumber : bool;
  defaultMaximumAllowedConditionNumber : R
}.

(** ** Writing to [std::cerr] *)

Inductive diagnostic (R : Type) : Type :=
| ConditionNumberWarning (conditionNumber : R)
    (* "Warning when performing least squares, condition number is ..." *)
| PolynomialFitSizeError.
    (* "Error when doing least squares polynomial fit, size of dependent and
       independent variable vectors is not equal" *)
Arguments ConditionNumberWarning {R} conditionNumber.
Arguments PolynomialFitSizeError {R}.

(** A computation that may append to the diagnostic stream and may end in a
    failed assertion; what was written before the failure stays written. *)
Definition Eff (R A : Type) : Type :=
  list (diagnostic R) → outcome A * list (diagnostic R).

Global Instance Eff_ret {R} : MRet (Eff R) := λ A a log, (Ok a, log).
Global Instance Eff_bind {R} : MBind (Eff R) := λ A B f m log,
  match m log with
  | (Ok a, log') => f a log'
  | (Fail e, log') => (Fail e, log')
  end.
Global Instance Eff_fmap {R} : FMap (Eff R) := λ A B f m log,
  match m log with
  | (Ok a, log') => (Ok (f a), log')
  | (Fail e, log') => (Fail e, log')
  end.

(** A step without output. *)
Definition lift {R A : Type} (o : outcome A) : Eff R A := λ log, (o, log).

(** [std::cerr << ... << std::endl]. *)
Definition cerr {R : Type} (d : diagnostic R) : Eff R unit := λ log, (Ok (), log ++ [d]).

Section LeastSquares.
Context {R : Type} `{Scalar R} `{EigenBackend R} `{AdjustmentDefaults R}.

(** [Eigen::JacobiSVD< Eigen::MatrixXd >]: the factorised matrix and its
    [min( rows, cols )] singular values. *)
Record JacobiSVD : Type := {
  decomposed : matrix R;
  singularValues : vector R
}.

(** [M.jacobiSvd( ... )].  Whether Eigen accepts a matrix without rows or
    columns here depends on its version: the results stated below for the
    solver are for matrices with at least one row and one column. *)
Definition jacobiSvd (M : matrix R) : JacobiSVD :=
  {| decomposed := M;
     singularValues := mk_vector (rows M `min` cols M) (jacobi_singular_value M) |}.

(** [svd.solve( b )]. *)
Definition svd_solve (svd : JacobiSVD) (b : vector R) : outcome (vector R) :=
  _ ← eigen_assert (rows (decomposed svd) = length b) DimensionMismatch;
  Ok (jacobi_solve (decomposed svd) b).

(** [M.inverse( )]: [PartialPivLU] asserts a square matrix and makes no test
    of invertibility. *)
Definition inverse (M : matrix R) : outcome (matrix R) :=
  _ ← eigen_assert (rows M = cols M) DimensionMismatch;
  Ok (mk_matrix (rows M) (cols M) (coeff (lu_inverse M))).

(** Lines 115-119.  [singularValues.rows( ) - 1] is a signed index: on an
    empty vector it is [-1], out of range like index [0]. *)
Definition getConditionNumberOfDecomposedMatrix
    (singularValueDecomposition : JacobiSVD) : outcome R :=
  let singularValues := singularValues singularValueDecomposition in
  largest ← vector_at singularValues 0;
  smallest ← (match length singularValues with
              | 0 => Fail IndexOutOfRange
              | S last => vector_at singularValues last
              end);
  Ok (fdiv largest smallest).

(** Lines 121-124. *)
Definition getSVDDecompositionOfInformationMatrix (informationMatrix : matrix R) : JacobiSVD :=
  jacobiSvd informationMatrix.

(** Lines 110-113. *)
Definition getConditionNumberOfInformationMatrix (informationMatrix : matrix R) : outcome R :=
  getConditionNumberOfDecomposedMatrix
    (getSVDDecompositionOfInformationMatrix informationMatrix).

(** Lines 126-142. *)
Definition solveSystemOfEquationsWithSvd
    (matrixToInvert : matrix R) (rightHandSideVector : vector R)
    (checkConditionNumber : bool) (maximumAllowedConditionNumber : R)
    : Eff R (vector R) :=
  let svdDecomposition := jacobiSvd matrixToInvert in
  _ ← (if checkConditionNumber
       then
         conditionNumber ← lift (getConditionNumberOfDecomposedMatrix svdDecomposition);
         if fgt conditionNumber maximumAllowedConditionNumber
         then cerr (ConditionNumberWarning conditionNumber)
         else mret ()
       else mret ());
  lift (svd_solve svdDecomposition rightHandSideVector).

(** Lines 175-186. *)
Definition calculateInverseOfUpdatedCovarianceMatrix
    (informationMatrix : matrix R) (diagonalOfWeightMatrix : vector R)
    (inverseOfAPrioriCovarianceMatrix : matrix R) : outcome (matrix R) :=
  weighted ← multiplyInformationMatrixByDiagonalWeightMatrix
               informationMatrix diagonalOfWeightMatrix;
  nominal ← mmul (transpose informationMatrix) weighted;
  madd inverseOfAPrioriCovarianceMatrix nominal.

(** Lines 188-194: the overload without a-priori information. *)
Definition calculateInverseOfUpdatedCovarianceMatrix_noPrior
    (informationMatrix : matrix R) (diagonalOfWeightMatrix : vector R)
    : outcome (matrix R) :=
  calculateInverseOfUpdatedCovarianceMatrix informationMatrix diagonalOfWeightMatrix
    (Zero (cols informationMatrix) (cols informationMatrix)).

(** Lines 159-173. *)
Definition calculateCovarianceMatrixWithConsiderParameters
    (informationMatrix : matrix R) (diagonalOfWeightMatrix : vector R)
    (inverseOfAPrioriCovarianceMatrix considerInformationMatrix
       considerCovarianceMatrix : matrix R) : outcome (matrix R) :=
  inverseOfCovariance ← calculateInverseOfUpdatedCovarianceMatrix
      informationMatrix diagonalOfWeightMatrix inverseOfAPrioriCovarianceMatrix;
  noiseOnlyCovariance ← inverse inverseOfCovariance;
  weighted ← multiplyInformationMatrixByDiagonalWeightMatrix
      informationMatrix diagonalOfWeightMatrix;
  auxiliaryMatrix ← mmul noiseOnlyCovariance (transpose weighted);
  left ← mmul auxiliaryMatrix considerInformationMatrix;
  leftTimesCovariance ← mmul left considerCovarianceMatrix;
  right ← mmul (transpose considerInformationMatrix) (transpose auxiliaryMatrix);
  considerContribution ← mmul leftTimesCovariance right;
  madd noiseOnlyCovariance considerContribution.

(** Lines 196-211: the full overload. *)
Definition performLeastSquaresAdjustmentFromInformationMatrix
    (informationMatrix : matrix R) (observationResiduals diagonalOfWeightMatrix : vector R)
    (inverseOfAPrioriCovarianceMatrix : matrix R) (aPrioriAdjustmentEstimate : vector R)
    (checkConditionNumber : bool) (maximumAllowedConditionNumber : R)
    : Eff R (vector R * matrix R) :=
  rightHandSide ← lift (weightedResiduals ← cwiseProduct diagonalOfWeightMatrix
                                                         observationResiduals;
                        mvmul (transpose informationMatrix) weightedResiduals);
  inverseOfCovarianceMatrix ← lift (calculateInverseOfUpdatedCovarianceMatrix
      informationMatrix diagonalOfWeightMatrix inverseOfAPrioriCovarianceMatrix);
  adjustment ← solveSystemOfEquationsWithSvd inverseOfCovarianceMatrix rightHandSide
      checkConditionNumber maximumAllowedConditionNumber;
  mret (adjustment, inverseOfCovarianceMatrix).

(** Lines 213-224: the overload without a-priori information. *)
Definition performLeastSquaresAdjustmentFromInformationMatrix_noPrior
    (informationMatrix : matrix R) (observationResiduals diagonalOfWeightMatrix : vector R)
    (checkConditionNumber : bool) (maximumAllowedConditionNumber : R)
    : Eff R (vector R * matrix R) :=
  performLeastSquaresAdjustmentFromInformationMatrix
    informationMatrix observationResiduals diagonalOfWeightMatrix
    (Zero (cols informationMatrix) (cols informationMatrix))
    (ZeroVector (length observationResiduals))
    checkConditionNumber maximumAllowedConditionNumber.

(** Lines 226-235: the overload without weights. *)
Definition performLeastSquaresAdjustmentFromInformationMatrix_unweighted
    (informationMatrix : matrix R) (observationResiduals : vector R)
    (checkConditionNumber : bool) (maximumAllowedConditionNumber : R)
    : Eff R (vector R * matrix R) :=
  performLeastSquaresAdjustmentFromInformationMatrix_noPrior
    informationMatrix observationResiduals
    (Constant (length observationResiduals) fone)
    checkConditionNumber maximumAllowedConditionNumber.

(** Lines 237-258.  [polynomialPowers.at( j )] is the checked access of
    [std::vector]. *)
Definition getLeastSquaresPolynomialFit
    (independentValues dependentValues : vector R) (polynomialPowers : list R)
    : Eff R (vector R) :=
  _ ← (if decide (length independentValues ≠ length dependentValues)
       then cerr PolynomialFitSizeError
       else mret ());
  partialMatrix ← lift (
    for_loop (length independentValues)
      (λ i partialMatrix,
         for_loop (length polynomialPowers)
           (λ j partialMatrix,
              x ← vector_at independentValues i;
              p ← vector_at polynomialPowers j;
              set_coeff partialMatrix i j (fpow x p))
           partialMatrix)
      (Zero (length dependentValues) (length polynomialPowers)));
  fst <$> performLeastSquaresAdjustmentFromInformationMatrix_unweighted
            partialMatrix dependentValues
            defaultCheckConditionNumber defaultMaximumAllowedConditionNumber.

End LeastSquares.

(** ** The quantities of the specification *)

Section Specification.
Context {R : Type} `{Scalar R} `{EigenBackend R}.

(** The [n] x [n] identity matrix. *)
Definition identity (n : nat) : matrix R :=
  mk_matrix n n (λ i j, if decide (i = j) then fone else fzero).

(** [M] has a two-sided inverse. *)
Definition invertible (M : matrix R) : Prop :=
  ∃ X : matrix R,
    mmul M X = Ok (identity (rows M)) ∧ mmul X M = Ok (identity (rows M)).

(** [H] with each row [i] scaled by [w[i]]. *)
Definition scaled_rows (H' : matrix R) (w : vector R) : matrix R :=
  mk_matrix (rows H') (cols H') (λ i j, fmul (coeff H' i j) (vcoeff w i)).

(** [N = P0inv + H^T * diag(w) * H], with the diagonal weight matrix
    written out. *)
Definition spec_inverseCovariance
    (H' : matrix R) (w : vector R) (P0inv : matrix R) : outcome (matrix R) :=
  WH ← mmul (asDiagonal w) H';
  HtWH ← mmul (transpose H') WH;
  madd P0inv HtWH.

(** [g = H^T * (w elementwise-times r)]. *)
Definition spec_rightHandSide
    (H' : matrix R) (w r : vector R) : outcome (vector R) :=
  wr ← cwiseProduct w r;
  mvmul (transpose H') wr.

(** [S = Pnoise * (diag(w) * H)^T]. *)
Definition spec_sensitivity
    (Pnoise H' : matrix R) (w : vector R) : outcome (matrix R) :=
  WH ← mmul (asDiagonal w) H';
  mmul Pnoise (transpose WH).

(** [Pnoise + (S * Hc) * Pc * (Hc^T * S^T)]. *)
Definition spec_considerCovariance
    (Pnoise S' Hc Pc : matrix R) : outcome (matrix R) :=
  SHc ← mmul S' Hc;
  SHcPc ← mmul SHc Pc;
  HctSt ← mmul (transpose Hc) (transpose S');
  inflation ← mmul SHcPc HctSt;
  madd Pnoise inflation.

(** The information matrix of a polynomial fit: [H[i][j] = x_i ^ p_j]. *)
Definition spec_polynomialInformationMatrix
    (x : vector R) (powers : list R) : matrix R :=
  mk_matrix (length x) (length powers)
    (λ i j, fpow (vcoeff x i) (vcoeff powers j)).

(** The laws of a commutative semiring that relate scaling the rows of a
    matrix to multiplying it by a diagonal matrix. *)
Class ScalarLaws : Prop := {
  fadd_0_l : ∀ x : R, fadd fzero x = x;
  fadd_0_r : ∀ x : R, fadd x fzero = x;
  fmul_0_l : ∀ x : R, fmul fzero x = fzero;
  fmul_comm : ∀ x y : R, fmul x y = fmul y x
}.

End Specification.

Arguments ScalarLaws R {_}.

(** ** Exact integer scalars

    An instance on which the embedding runs: integer arithmetic, and a
    backend that is exact on identity matrices.  It serves to evaluate the
    functions on concrete inputs. *)

Module IntegerInstance.

Global Instance Z_scalar : Scalar Z := {|
  fzero := 0%Z;
  fone := 1%Z;
  fadd := Z.add;
  fmul := Z.mul;
  fdiv := Z.div;
  fpow := Z.pow;
  fgt := Z.gtb
|}.

Global Instance Z_backend : EigenBackend Z := {|
  jacobi_singular_value := λ M k, Z.abs (coeff M k k);
  jacobi_solve := λ M b, b;
  lu_inverse := λ M, M
|}.

Global Instance Z_defaults : AdjustmentDefaults Z := {|
  defaultCheckConditionNumber := true;
  defaultMaximumAllowedConditionNumber := (10 ^ 8)%Z
|}.

(** A matrix from its rows. *)
Definition of_rows (r c : nat) (l : list (list Z)) : matrix Z :=
  mk_matrix r c (λ i j, default 0%Z (l !! i ≫= (.!! j))).

End IntegerInstance.

(** ** The cross-product matrix (lines 24-35) *)

(** Unary minus on [double]. *)
Class ScalarNeg (R : Type) : Type := {
  fneg : R → R
}.

Global Instance Z_scalar_neg : ScalarNeg Z := {| fneg := Z.opp |}.

Section CrossProduct.
Context {R : Type} `{Scalar R} `{ScalarNeg R}.

(** [Eigen::Vector3d]: three coordinates, read by [x( )], [y( )], [z( )]. *)
Record Vector3d : Type := {
  coord_x : R;
  coord_y : R;
  coord_z : R
}.

(** A [Vector3d] as the vector of its coefficients. *)
Definition coefficients (vector : Vector3d) : list R :=
  [coord_x vector; coord_y vector; coord_z vector].

(** Lines 25-35.  An [Eigen::Matrix3d] is a 3 x 3 matrix; its coefficient
    access asserts the range like that of any matrix. *)
Definition getCrossProductMatrix (vector : Vector3d) : outcome (matrix R) :=
  let crossProductMatrix := Zero 3 3 in
  crossProductMatrix ← set_coeff crossProductMatrix 1 0 (coord_z vector);
  crossProductMatrix ← set_coeff crossProductMatrix 0 1 (fneg (coord_z vector));
  crossProductMatrix ← set_coeff crossProductMatrix 2 0 (fneg (coord_y vector));
  crossProductMatrix ← set_coeff crossProductMatrix 0 2 (coord_y vector);
  crossProductMatrix ← set_coeff crossProductMatrix 2 1 (coord_x vector);
  crossProductMatrix ← set_coeff crossProductMatrix 1 2 (fneg (coord_x vector));
  Ok crossProductMatrix.

(** The cross product [a x b], each difference [p - q] written as
    [(- q) + p] or [p + (- q)] in the order of the columns. *)
Definition spec_cross (a b : Vector3d) : vector R :=
  [fadd (fmul (fneg (coord_z a)) (coord_y b)) (fmul (coord_y a) (coord_z b));
   fadd (fmul (coord_z a) (coord_x b)) (fmul (fneg (coord_x a)) (coord_z b));
   fadd (fmul (fneg (coord_y a)) (coord_x b)) (fmul (coord_x a) (coord_y b))].

(** [- M]. *)
Definition negated (M : matrix R) : matrix R :=
  mk_matrix (rows M) (cols M) (λ i j, fneg (coeff M i j)).

End CrossProduct.

Arguments Vector3d R : clear implicits.

(** ** Shapes of stored matrices *)

Section Shapes.
Context {R : Type} `{Scalar R}.

(** The storage of [M] has [cols M] columns of [rows M] coefficients, as
    that of every [Eigen::MatrixXd]. *)
Definition well_formed (M : matrix R) : Prop :=
  length (data M) = cols M
  ∧ Forall (λ column, length column = rows M) (data M).


End Shapes.

(** ** The angle between two vectors (lines 37-74) *)

(** The comparisons and the arccosine of [double]. *)
Class ScalarOrder (R : Type) : Type := {
  fge : R → R → bool;        (* operator>= *)
  fle : R → R → bool;        (* operator<= *)
  facos : R → R              (* std::acos *)
}.

(** The coefficients Eigen gives for [v.normalized( )]. *)
Class EigenNormalization (R : Type) : Type := {
  eigen_normalized : vector R → vector R
}.

Global Instance Z_scalar_order : ScalarOrder Z := {|
  fge := Z.geb;
  fle := Z.leb;
  facos := λ c, c
|}.

Global Instance Z_normalization : EigenNormalization Z := {|
  eigen_normalized := λ v, v
|}.

(** How a call that can throw ends: with a value, with the
    [std::runtime_error] of the size test, or in an assertion of Eigen. *)
Inductive raised (A : Type) : Type :=
| Returned (a : A)
| RuntimeError
    (* "Error when computing angle between vectors; size is incompatible" *)
| AssertionFailed (e : eigen_error).
Arguments Returned {A} a.
Arguments RuntimeError {A}.
Arguments AssertionFailed {A} e.

Section Angles.
Context {R : Type} `{Scalar R} `{ScalarNeg R} `{ScalarOrder R} `{EigenNormalization R}.

(** [v.normalized( )]: a vector of the size of [v]. *)
Definition normalized (v : vector R) : vector R :=
  mk_vector (length v) (vcoeff (eigen_normalized v)).

(** [u.dot( v )]. *)
Definition vector_dot (u v : vector R) : outcome R :=
  _ ← eigen_assert (length u = length v) DimensionMismatch;
  Ok (dot (length u) (vcoeff u) (vcoeff v)).

(** Lines 38-64. *)
Definition computeCosineOfAngleBetweenVectors (vector0 vector1 : vector R) : raised R :=
  if decide (¬ (length vector0 = length vector1))
  then RuntimeError
  else
    match vector_dot (normalized vector0) (normalized vector1) with
    | Fail e => AssertionFailed e
    | Ok dotProductOfNormalizedVectors =>
        if fge dotProductOfNormalizedVectors fone
        then Returned fone
        else if fle dotProductOfNormalizedVectors (fneg fone)
        then Returned (fneg fone)
        else Returned dotProductOfNormalizedVectors
    end.

(** Lines 67-74. *)
Definition computeAngleBetweenVectors (vector0 vector1 : vector R) : raised R :=
  match computeCosineOfAngleBetweenVectors vector0 vector1 with
  | Returned dotProductOfNormalizedVectors =>
      Returned (facos dotProductOfNormalizedVectors)
  | RuntimeError => RuntimeError
  | AssertionFailed e => AssertionFailed e
  end.

End Angles.

(** * Properties *)

(** ** Assertions and loops *)

Lemma eigen_assert_true (P : Prop) `{Decision P} (e : eigen_error) :
  P → eigen_assert P e = Ok ().
Proof. intros HP. unfold eigen_assert. by rewrite decide_True. Qed.

Lemma eigen_assert_false (P : Prop) `{Decision P} (e : eigen_error) :
  ¬ P → eigen_assert P e = Fail e.
Proof. intros HP. unfold eigen_assert. by rewrite decide_False. Qed.

(** A loop whose body keeps an invariant runs to its end and establishes the
    invariant at the bound. *)
Lemma for_each_invariant {S : Type} (I : nat → S → Prop)
    (body : nat → S → outcome S) (len start : nat) (s : S) :
  I start s →
  (∀ i t, start ≤ i < start + len → I i t →
          ∃ t', body i t = Ok t' ∧ I (Datatypes.S i) t') →
  ∃ s', for_each body (seq start len) s = Ok s' ∧ I (start + len) s'.
Proof.
  revert start s. induction len as [|len IH]; intros start s Hs Hbody.
  - exists s. rewrite Nat.add_0_r. done.
  - destruct (Hbody start s) as (t & Ht & HI); [lia | done |].
    destruct (IH (Datatypes.S start) t) as (s' & Hs' & HI').
    + done.
    + intros i u Hi Hu. apply Hbody; [lia | done].
    + exists s'. cbn [seq for_each]. rewrite Ht. split; [done |].
      by replace (start + Datatypes.S len) with (Datatypes.S start + len) by lia.
Qed.

Lemma for_loop_invariant {S : Type} (I : nat → S → Prop)
    (n : nat) (body : nat → S → outcome S) (s : S) :
  I 0 s →
  (∀ i t, i < n → I i t → ∃ t', body i t = Ok t' ∧ I (Datatypes.S i) t') →
  ∃ s', for_loop n body s = Ok s' ∧ I n s'.
Proof.
  intros Hs Hbody.
  destruct (for_each_invariant I body n 0 s) as (s' & Hrun & HI); [done | |].
  - intros i t Hi. apply Hbody. lia.
  - by exists s'.
Qed.

Lemma fmap_seq_ext {A : Type} (n : nat) (h k : nat → A) :
  (∀ i, i < n → h i = k i) → h <$> seq 0 n = k <$> seq 0 n.
Proof.
  intros Hext. apply list_eq. intros i.
  rewrite !list_lookup_fmap.
  destruct (decide (i < n)) as [Hi|Hi].
  - rewrite lookup_seq_lt by done. cbn. by rewrite Hext.
  - by rewrite lookup_seq_ge by lia.
Qed.

Lemma lookup_fmap_seq {A : Type} (n : nat) (h : nat → A) (i : nat) :
  (h <$> seq 0 n) !! i = if decide (i < n) then Some (h i) else None.
Proof.
  rewrite list_lookup_fmap. case_decide.
  - by rewrite lookup_seq_lt.
  - by rewrite lookup_seq_ge by lia.
Qed.

(** ** Matrices given coefficient by coefficient *)

Section DenseFacts.
Context {R : Type} `{Scalar R}.
Implicit Types (M A B : matrix R) (u v w : vector R) (f g : nat → nat → R).

Lemma length_mk_vector n (h : nat → R) : length (mk_vector n h) = n.
Proof. unfold mk_vector. by rewrite length_fmap, length_seq. Qed.

Lemma lookup_mk_vector n (h : nat → R) i :
  i < n → mk_vector n h !! i = Some (h i).
Proof.
  intros Hi. unfold mk_vector.
  by rewrite list_lookup_fmap, lookup_seq_lt.
Qed.

Lemma mk_vector_ext n (h k : nat → R) :
  (∀ i, i < n → h i = k i) → mk_vector n h = mk_vector n k.
Proof.
  apply fmap_seq_ext.
Qed.

Lemma vcoeff_mk_vector n (h : nat → R) i :
  i < n → vcoeff (mk_vector n h) i = h i.
Proof. intros Hi. unfold vcoeff. by rewrite lookup_mk_vector. Qed.

Lemma vector_at_lt v i : i < length v → vector_at v i = Ok (vcoeff v i).
Proof.
  intros Hi. unfold vector_at, vcoeff.
  destruct (lookup_lt_is_Some_2 v i Hi) as [x Hx]. by rewrite Hx.
Qed.

Lemma mk_vector_id v : mk_vector (length v) (vcoeff v) = v.
Proof.
  apply list_eq. intros i. destruct (decide (i < length v)) as [Hi|Hi].
  - rewrite lookup_mk_vector by done. unfold vcoeff.
    destruct (lookup_lt_is_Some_2 v i Hi) as [x Hx]. by rewrite Hx.
  - rewrite !lookup_ge_None_2; [done | lia | rewrite length_mk_vector; lia].
Qed.

Lemma coeff_mk_matrix r c f i j :
  i < r → j < c → coeff (mk_matrix r c f) i j = f i j.
Proof.
  intros Hi Hj. unfold coeff, mk_matrix. cbn.
  rewrite list_lookup_fmap, lookup_seq_lt by done. cbn.
  by rewrite list_lookup_fmap, lookup_seq_lt.
Qed.

Lemma mk_matrix_ext r c f g :
  (∀ i j, i < r → j < c → f i j = g i j) → mk_matrix r c f = mk_matrix r c g.
Proof.
  intros Hext. unfold mk_matrix. f_equal.
  apply fmap_seq_ext. intros j Hj.
  apply fmap_seq_ext. intros i Hi. by apply Hext.
Qed.

Lemma rows_mk_matrix r c f : rows (mk_matrix r c f) = r.
Proof. done. Qed.

Lemma cols_mk_matrix r c f : cols (mk_matrix r c f) = c.
Proof. done. Qed.

(** Writing one coefficient. *)
Lemma set_coeff_mk_matrix r c f i j (x : R) :
  i < r → j < c →
  set_coeff (mk_matrix r c f) i j x
  = Ok (mk_matrix r c (λ i' j', if decide (i' = i ∧ j' = j) then x else f i' j')).
Proof.
  intros Hi Hj. unfold set_coeff.
  rewrite eigen_assert_true by done. cbn. f_equal. unfold mk_matrix. f_equal.
  apply list_eq. intros j'.
  rewrite list_lookup_alter, !lookup_fmap_seq.
  rewrite (decide_True (P := j < c)) by done.
  destruct (decide (j = j')) as [<-|Hne].
  - rewrite decide_True by done. cbn. f_equal.
    apply list_eq. intros i'.
    rewrite list_lookup_insert, length_fmap, length_seq, !lookup_fmap_seq.
    repeat case_decide; try done; exfalso; lia.
  - case_decide; [|done]. f_equal. apply fmap_seq_ext. intros i' Hi'.
    rewrite decide_False; [done | lia].
Qed.

(** Writing one column. *)
Lemma assign_block_column_mk_matrix r c f j v :
  j < c → length v = r →
  assign_block_column (mk_matrix r c f) j v
  = Ok (mk_matrix r c (λ i j', if decide (j' = j) then vcoeff v i else f i j')).
Proof.
  intros Hj Hv. unfold assign_block_column.
  rewrite !eigen_assert_true by done. cbn. f_equal. unfold mk_matrix. f_equal.
  apply list_eq. intros j'.
  rewrite list_lookup_insert, length_fmap, length_seq, !lookup_fmap_seq.
  destruct (decide (j = j')) as [<-|Hne].
  - rewrite !decide_True by done. f_equal.
    rewrite <- (mk_vector_id v) at 1. rewrite Hv.
    apply fmap_seq_ext. intros i Hi. by rewrite decide_True.
  - rewrite decide_False by lia.
    case_decide; [|done]. f_equal. apply fmap_seq_ext. intros i Hi.
    by rewrite decide_False by done.
Qed.

Lemma cwiseProduct_mk_vector n (h : nat → R) w :
  length w = n →
  cwiseProduct (mk_vector n h) w = Ok (mk_vector n (λ i, fmul (h i) (vcoeff w i))).
Proof.
  intros Hw. unfold cwiseProduct.
  rewrite eigen_assert_true by (by rewrite length_mk_vector). cbn. f_equal.
  apply list_eq. intros i. unfold mk_vector, vcoeff.
  rewrite lookup_zip_with, !lookup_fmap_seq.
  case_decide as Hi; [|done]. cbn.
  destruct (lookup_lt_is_Some_2 w i) as [x Hx]; [lia|]. by rewrite Hx.
Qed.

Lemma cwiseProduct_vectors u v :
  length u = length v →
  cwiseProduct u v = Ok (mk_vector (length u) (λ i, fmul (vcoeff u i) (vcoeff v i))).
Proof.
  intros Huv. rewrite <- (mk_vector_id u) at 1.
  by rewrite cwiseProduct_mk_vector.
Qed.

End DenseFacts.

(** ** Weighting the information matrix *)

Section Weighting.
Context {R : Type} `{Scalar R}.
Implicit Types (M : matrix R) (w : vector R).

Lemma block_column_lt M j :
  j < cols M → block_column M j = Ok (mk_vector (rows M) (λ i, coeff M i j)).
Proof. intros Hj. unfold block_column. by rewrite eigen_assert_true. Qed.

(** With as many weights as rows, the loop over the columns scales every
    row by its weight. *)
Lemma multiply_scales_rows M w :
  length w = rows M →
  multiplyInformationMatrixByDiagonalWeightMatrix M w = Ok (scaled_rows M w).
Proof.
  intros Hw. unfold multiplyInformationMatrixByDiagonalWeightMatrix.
  destruct (for_loop_invariant
    (λ c W, W = mk_matrix (rows M) (cols M)
                  (λ i j, if decide (j < c)
                          then fmul (coeff M i j) (vcoeff w i) else fzero))
    (cols M)
    (λ i W, column ← block_column M i;
            scaled ← cwiseProduct column w;
            assign_block_column W i scaled)
    (Zero (rows M) (cols M))) as (W & Hrun & HW).
  - apply mk_matrix_ext. intros i j _ _. by rewrite decide_False by lia.
  - intros j W Hj ->. eexists. split.
    + rewrite block_column_lt by done. cbn.
      rewrite cwiseProduct_mk_vector by done. cbn.
      apply assign_block_column_mk_matrix; [done | apply length_mk_vector].
    + apply mk_matrix_ext. intros i j' Hi Hj'.
      destruct (decide (j' = j)) as [->|Hne].
      * rewrite decide_True by lia. by rewrite vcoeff_mk_vector.
      * destruct (decide (j' < j)).
        -- by rewrite decide_True by lia.
        -- by rewrite decide_False by lia.
  - rewrite Hrun, HW. f_equal. apply mk_matrix_ext. intros i j _ Hj.
    by rewrite decide_True.
Qed.

(** With a wrong number of weights and at least one column, the product of
    the first column with the weights fails. *)
Lemma multiply_mismatch M w :
  length w ≠ rows M → 0 < cols M →
  multiplyInformationMatrixByDiagonalWeightMatrix M w = Fail DimensionMismatch.
Proof.
  intros Hw Hc. unfold multiplyInformationMatrixByDiagonalWeightMatrix, for_loop.
  destruct (cols M) as [|c] eqn:Ec; [lia|]. cbn [seq for_each].
  rewrite block_column_lt by lia. cbn.
  unfold cwiseProduct. rewrite eigen_assert_false; [done|].
  rewrite length_mk_vector. congruence.
Qed.

(** Without columns the loop body never runs. *)
Lemma multiply_no_columns M w :
  cols M = 0 →
  multiplyInformationMatrixByDiagonalWeightMatrix M w = Ok (Zero (rows M) 0).
Proof.
  intros Hc. unfold multiplyInformationMatrixByDiagonalWeightMatrix, for_loop.
  by rewrite Hc.
Qed.

(** Whenever the function returns, the result has the shape of its
    argument. *)
Lemma multiply_shape M w W :
  multiplyInformationMatrixByDiagonalWeightMatrix M w = Ok W →
  rows W = rows M ∧ cols W = cols M.
Proof.
  destruct (decide (length w = rows M)) as [Hw|Hw].
  - rewrite multiply_scales_rows by done. by intros [= <-].
  - destruct (decide (0 < cols M)) as [Hc|Hc].
    + by rewrite multiply_mismatch.
    + rewrite multiply_no_columns by lia. intros [= <-]. cbn. lia.
Qed.

End Weighting.

(** ** Row scaling is multiplication by the diagonal weight matrix *)

Section DiagonalWeights.
Context {R : Type} `{Scalar R}.
Context (laws : ScalarLaws R).
Implicit Types (M : matrix R) (w : vector R).

(** Terms that vanish do not change a running sum. *)
Lemma foldl_zero_terms (a g : nat → R) (start len : nat) (acc : R) :
  (∀ k, start ≤ k < start + len → a k = fzero) →
  foldl (λ acc k, fadd acc (fmul (a k) (g k))) acc (seq start len) = acc.
Proof using laws.
  revert start acc. induction len as [|len IH]; intros start acc Hz; [done|].
  cbn. rewrite Hz by lia. rewrite fmul_0_l, fadd_0_r.
  apply IH. intros k Hk. apply Hz. lia.
Qed.

(** A sum with a single term that does not vanish. *)
Lemma dot_single (n i : nat) (a g : nat → R) :
  i < n → (∀ k, k < n → k ≠ i → a k = fzero) →
  dot n a g = fmul (a i) (g i).
Proof using laws.
  intros Hi Hz. unfold dot.
  replace n with (i + (1 + (n - Datatypes.S i))) by lia.
  rewrite !seq_app, !foldl_app. cbn [seq foldl].
  rewrite (foldl_zero_terms a g 0 i) by (intros k Hk; apply Hz; lia).
  rewrite fadd_0_l.
  apply foldl_zero_terms. intros k Hk. apply Hz; lia.
Qed.

Lemma asDiagonal_mmul M w :
  length w = rows M →
  mmul (asDiagonal w) M = Ok (scaled_rows M w).
Proof using laws.
  intros Hw. unfold mmul, asDiagonal.
  rewrite eigen_assert_true by done. cbn. f_equal.
  rewrite Hw. apply mk_matrix_ext. intros i j Hi Hj.
  rewrite (dot_single (rows M) i) by
    (try done; intros k Hk Hne; rewrite coeff_mk_matrix by lia;
     by rewrite decide_False by done).
  rewrite coeff_mk_matrix by lia. rewrite decide_True by done.
  apply fmul_comm.
Qed.

(** The weighted information matrix of the source is [diag(w) * H]. *)
Lemma multiply_is_asDiagonal_mmul M w :
  length w = rows M →
  multiplyInformationMatrixByDiagonalWeightMatrix M w = mmul (asDiagonal w) M.
Proof using laws.
  intros Hw. by rewrite multiply_scales_rows, asDiagonal_mmul.
Qed.

End DiagonalWeights.

(** ** The solver and its diagnostic *)

Section Solver.
Context {R : Type} `{Scalar R} `{EigenBackend R}.
Implicit Types (A : matrix R) (b : vector R) (log : list (diagnostic R)).

(** A factorisation has [min( rows, cols )] singular values. *)
Lemma length_singularValues A :
  length (singularValues (jacobiSvd A)) = rows A `min` cols A.
Proof. apply length_mk_vector. Qed.

(** A matrix with at least one row and one column has a condition number:
    the ratio of its first to its last singular value. *)
Lemma conditionNumber_defined A :
  0 < rows A → 0 < cols A →
  getConditionNumberOfDecomposedMatrix (jacobiSvd A)
  = Ok (fdiv (jacobi_singular_value A 0)
             (jacobi_singular_value A (pred (rows A `min` cols A)))).
Proof.
  intros Hr Hc. unfold getConditionNumberOfDecomposedMatrix.
  rewrite length_singularValues.
  destruct (rows A `min` cols A) as [|last] eqn:Emin; [lia|].
  rewrite !vector_at_lt by (rewrite length_singularValues; lia). cbn.
  unfold jacobiSvd. cbn [singularValues]. rewrite Emin.
  by rewrite !vcoeff_mk_vector by lia.
Qed.

(** An empty matrix has none: reading the first singular value fails. *)
Lemma conditionNumber_undefined A :
  rows A = 0 ∨ cols A = 0 →
  getConditionNumberOfDecomposedMatrix (jacobiSvd A) = Fail IndexOutOfRange.
Proof.
  intros Hempty. unfold getConditionNumberOfDecomposedMatrix, vector_at.
  rewrite lookup_ge_None_2; [done|].
  rewrite length_singularValues. lia.
Qed.

Lemma svd_solve_compatible A b :
  rows A = length b → svd_solve (jacobiSvd A) b = Ok (jacobi_solve A b).
Proof. intros Hb. unfold svd_solve. by rewrite eigen_assert_true. Qed.

(** One run of the solver on a system of compatible dimensions: the
    solution of the factorisation, and at most the one warning. *)
Lemma solve_run A b (chk : bool) (max c : R) log :
  rows A = length b →
  (chk = true → getConditionNumberOfDecomposedMatrix (jacobiSvd A) = Ok c) →
  solveSystemOfEquationsWithSvd A b chk max log
  = (Ok (jacobi_solve A b),
     if chk && fgt c max then log ++ [ConditionNumberWarning c] else log).
Proof.
  intros Hb Hc. unfold solveSystemOfEquationsWithSvd, mbind, Eff_bind, lift.
  destruct chk; cbn.
  - rewrite Hc by done. destruct (fgt c max); cbn; by rewrite svd_solve_compatible.
  - by rewrite svd_solve_compatible.
Qed.

(** Without the check nothing is written, whatever the dimensions. *)
Lemma solve_unchecked_silent A b (max : R) log :
  (solveSystemOfEquationsWithSvd A b false max log).2 = log.
Proof.
  unfold solveSystemOfEquationsWithSvd, mbind, Eff_bind, lift. cbn.
  by destruct (svd_solve (jacobiSvd A) b).
Qed.

End Solver.

(** ** The normal equations *)

Section NormalEquations.
Context {R : Type} `{Scalar R} `{EigenBackend R}.
Implicit Types (M P : matrix R) (w r : vector R) (log : list (diagnostic R)).

(** The shape of a product and of a sum. *)
Lemma mmul_compatible A B :
  cols A = rows B →
  ∃ C, mmul A B = Ok C ∧ rows C = rows A ∧ cols C = cols B.
Proof. intros HAB. unfold mmul. rewrite eigen_assert_true by done. by eexists. Qed.

Lemma madd_compatible A B :
  rows A = rows B → cols A = cols B →
  ∃ C, madd A B = Ok C ∧ rows C = rows A ∧ cols C = cols A.
Proof.
  intros Hr Hc. unfold madd. rewrite eigen_assert_true by done. by eexists.
Qed.

(** The inverse covariance of the source, once the weights fit the rows. *)
Lemma calculateInverse_value M w P :
  length w = rows M →
  calculateInverseOfUpdatedCovarianceMatrix M w P
  = (nominal ← mmul (transpose M) (scaled_rows M w); madd P nominal).
Proof.
  intros Hw. unfold calculateInverseOfUpdatedCovarianceMatrix.
  by rewrite multiply_scales_rows.
Qed.

(** It is defined and square when the prior is square of the size of the
    parameter vector. *)
Lemma calculateInverse_compatible M w P :
  length w = rows M → rows P = cols M → cols P = cols M →
  ∃ N, calculateInverseOfUpdatedCovarianceMatrix M w P = Ok N
       ∧ rows N = cols M ∧ cols N = cols M.
Proof.
  intros Hw Hr Hc. rewrite calculateInverse_value by done.
  destruct (mmul_compatible (transpose M) (scaled_rows M w))
    as (X & -> & HrX & HcX); [done|]. cbn in HrX, HcX. cbn.
  destruct (madd_compatible P X) as (N & -> & HrN & HcN); [lia.. |].
  exists N. split; [done | lia].
Qed.

(** The right-hand side of the source. *)
Lemma rightHandSide_compatible M w r :
  length w = length r → rows M = length r →
  ∃ g, spec_rightHandSide M w r = Ok g ∧ length g = cols M.
Proof.
  intros Hw Hr. unfold spec_rightHandSide.
  rewrite cwiseProduct_vectors by done. cbn.
  unfold mvmul. rewrite eigen_assert_true by (rewrite length_mk_vector; cbn; lia).
  eexists. split; [done|]. by rewrite length_mk_vector.
Qed.

(** One run of the full overload, for dimensions that fit together and at
    least one estimated parameter. *)
Lemma adjustment_run M r w P v (chk : bool) (max : R) N g log :
  calculateInverseOfUpdatedCovarianceMatrix M w P = Ok N →
  spec_rightHandSide M w r = Ok g →
  rows N = length g → 0 < rows N → 0 < cols N →
  ∃ c,
    performLeastSquaresAdjustmentFromInformationMatrix M r w P v chk max log
    = (Ok (jacobi_solve N g, N),
       if chk && fgt c max then log ++ [ConditionNumberWarning c] else log).
Proof.
  intros HN Hg Hshape Hr Hc.
  unfold performLeastSquaresAdjustmentFromInformationMatrix.
  unfold spec_rightHandSide in Hg.
  unfold mbind at 1. unfold Eff_bind, lift. rewrite Hg.
  unfold mbind at 1. unfold Eff_bind. rewrite HN.
  unfold mbind at 1. unfold Eff_bind.
  eexists. erewrite solve_run; [done | done |].
  intros _. by apply conditionNumber_defined.
Qed.

End NormalEquations.

(** ** The information matrix of the polynomial fit *)

Section PolynomialFit.
Context {R : Type} `{Scalar R}.
Implicit Types (x y : vector R) (powers : list R).

(** The double loop fills the rows of the samples it is given, as long as
    they fit in the matrix, and leaves the other rows zero. *)
Lemma polynomial_loop x powers (n : nat) :
  length x ≤ n →
  for_loop (length x)
    (λ i partialMatrix,
       for_loop (length powers)
         (λ j partialMatrix,
            xi ← vector_at x i;
            p ← vector_at powers j;
            set_coeff partialMatrix i j (fpow xi p))
         partialMatrix)
    (Zero n (length powers))
  = Ok (mk_matrix n (length powers)
          (λ i j, if decide (i < length x)
                  then fpow (vcoeff x i) (vcoeff powers j) else fzero)).
Proof.
  intros Hn.
  set (entry := λ i j, fpow (vcoeff x i) (vcoeff powers j)).
  destruct (for_loop_invariant
    (λ i M, M = mk_matrix n (length powers)
                  (λ i' j', if decide (i' < i) then entry i' j' else fzero))
    (length x)
    (λ i partialMatrix,
       for_loop (length powers)
         (λ j partialMatrix,
            xi ← vector_at x i;
            p ← vector_at powers j;
            set_coeff partialMatrix i j (fpow xi p))
         partialMatrix)
    (Zero n (length powers))) as (M & Hrun & HM).
  - apply mk_matrix_ext. intros i j _ _. by rewrite decide_False by lia.
  - intros i M Hi ->.
    destruct (for_loop_invariant
      (λ j M, M = mk_matrix n (length powers)
                    (λ i' j', if decide (i' < i ∨ (i' = i ∧ j' < j))
                              then entry i' j' else fzero))
      (length powers)
      (λ j partialMatrix,
         xi ← vector_at x i;
         p ← vector_at powers j;
         set_coeff partialMatrix i j (fpow xi p))
      (mk_matrix n (length powers)
         (λ i' j', if decide (i' < i) then entry i' j' else fzero)))
      as (M & Hrow & HM).
    + apply mk_matrix_ext. intros i' j' _ _.
      destruct (decide (i' < i)).
      * by rewrite decide_True by lia.
      * by rewrite decide_False by lia.
    + intros j M Hj ->. eexists. split.
      * rewrite !vector_at_lt by done. cbn.
        apply set_coeff_mk_matrix; lia.
      * apply mk_matrix_ext. intros i' j' Hi' Hj'.
        destruct (decide (i' = i ∧ j' = j)) as [[-> ->]|Hne].
        -- by rewrite decide_True by lia.
        -- destruct (decide (i' < i ∨ i' = i ∧ j' < j)).
           ++ by rewrite decide_True by lia.
           ++ by rewrite decide_False by lia.
    + exists M. split; [done|]. rewrite HM.
      apply mk_matrix_ext. intros i' j' Hi' Hj'.
      destruct (decide (i' < Datatypes.S i)).
      * by rewrite decide_True by lia.
      * by rewrite decide_False by lia.
  - by rewrite Hrun, HM.
Qed.

(** For as many samples as the matrix has rows, the result is the
    information matrix [x_i ^ p_j]. *)
Lemma polynomial_loop_full x powers (n : nat) :
  length x = n →
  for_loop (length x)
    (λ i partialMatrix,
       for_loop (length powers)
         (λ j partialMatrix,
            xi ← vector_at x i;
            p ← vector_at powers j;
            set_coeff partialMatrix i j (fpow xi p))
         partialMatrix)
    (Zero n (length powers))
  = Ok (spec_polynomialInformationMatrix x powers).
Proof.
  intros Hn. rewrite polynomial_loop by lia. f_equal.
  unfold spec_polynomialInformationMatrix. rewrite Hn.
  apply mk_matrix_ext. intros i j Hi _. by rewrite decide_True.
Qed.

End PolynomialFit.

(** ** The covariance with consider parameters *)

Section ConsiderCovariance.
Context {R : Type} `{Scalar R} `{EigenBackend R}.
Context (laws : ScalarLaws R).
Implicit Types (M P Hc Pc : matrix R) (w : vector R).

(** The inverse covariance of the source is [P0inv + H^T * diag(w) * H]. *)
Lemma calculateInverse_is_spec M w P :
  length w = rows M →
  calculateInverseOfUpdatedCovarianceMatrix M w P = spec_inverseCovariance M w P.
Proof using laws.
  intros Hw. unfold calculateInverseOfUpdatedCovarianceMatrix, spec_inverseCovariance.
  by rewrite multiply_is_asDiagonal_mmul.
Qed.

Lemma inverse_square N :
  rows N = cols N →
  ∃ Pnoise, inverse N = Ok Pnoise ∧ rows Pnoise = rows N ∧ cols Pnoise = cols N.
Proof using Type.
  intros Hsq. unfold inverse. rewrite eigen_assert_true by done. by eexists.
Qed.

(** For dimensions that fit together the function returns the consider
    covariance built on whatever the backend gives as the inverse of [N];
    no property of [N] is tested. *)
Lemma considerCovariance_run M w P Hc Pc :
  length w = rows M → rows P = cols M → cols P = cols M →
  rows Hc = rows M → rows Pc = cols Hc → cols Pc = cols Hc →
  ∃ N Pnoise S' total,
    spec_inverseCovariance M w P = Ok N
    ∧ inverse N = Ok Pnoise
    ∧ spec_sensitivity Pnoise M w = Ok S'
    ∧ spec_considerCovariance Pnoise S' Hc Pc = Ok total
    ∧ calculateCovarianceMatrixWithConsiderParameters M w P Hc Pc = Ok total.
Proof using laws.
  intros Hw HrP HcP HrHc HrPc HcPc.
  destruct (calculateInverse_compatible M w P) as (N & HN & HrN & HcN); [done..|].
  destruct (inverse_square N) as (Pnoise & HPn & HrPn & HcPn); [lia|].
  destruct (mmul_compatible Pnoise (transpose (scaled_rows M w)))
    as (S' & HS & HrS & HcS); [cbn; lia|]. cbn in HcS.
  destruct (mmul_compatible S' Hc) as (SHc & HSHc & HrSHc & HcSHc); [lia|].
  destruct (mmul_compatible SHc Pc) as (SHcPc & HSHcPc & HrSHcPc & HcSHcPc); [lia|].
  destruct (mmul_compatible (transpose Hc) (transpose S'))
    as (HctSt & HHctSt & HrHctSt & HcHctSt); [cbn; lia|]. cbn in HrHctSt, HcHctSt.
  destruct (mmul_compatible SHcPc HctSt) as (inflation & Hinf & Hrinf & Hcinf); [lia|].
  destruct (madd_compatible Pnoise inflation) as (total & Htotal & _ & _); [lia..|].
  assert (spec_considerCovariance Pnoise S' Hc Pc = Ok total) as Hspec.
  { unfold spec_considerCovariance.
    rewrite HSHc. cbn. rewrite HSHcPc. cbn. rewrite HHctSt. cbn.
    by rewrite Hinf. }
  exists N, Pnoise, S', total. split_and!.
  - by rewrite <- calculateInverse_is_spec.
  - done.
  - unfold spec_sensitivity. by rewrite asDiagonal_mmul.
  - done.
  - unfold calculateCovarianceMatrixWithConsiderParameters.
    rewrite HN. cbn. rewrite HPn. cbn.
    rewrite multiply_scales_rows by done. cbn. rewrite HS. cbn.
    exact Hspec.
Qed.

End ConsiderCovariance.

(** ** The polynomial fit on too few samples *)

Section ShortSamples.
Context {R : Type} `{Scalar R} `{EigenBackend R} `{AdjustmentDefaults R}.
Implicit Types (x y : vector R) (powers : list R) (log : list (diagnostic R)).


End ShortSamples.

(** ** Integer scalars obey the laws *)

Lemma Z_laws : ScalarLaws Z.
Proof.
  split; cbn.
  - apply Z.add_0_l.
  - apply Z.add_0_r.
  - apply Z.mul_0_l.
  - apply Z.mul_comm.
Qed.

(** The 1 x 1 zero matrix has no inverse. *)
Lemma zero_matrix_not_invertible :
  ¬ invertible (IntegerInstance.of_rows 1 1 [[0%Z]]).
Proof.
  intros (X & HX & _). unfold mmul, eigen_assert in HX.
  destruct (decide _) as [Hshape|]; [|done]. cbn in HX.
  injection HX as Hcols Hdata. rewrite Hcols in Hdata.
  vm_compute in Hdata. discriminate.
Qed.

(** * The claims of the specification *)

Section Claims.
Context {R : Type} `{Scalar R} `{EigenBackend R} `{AdjustmentDefaults R}.
Implicit Types (M P Hc Pc A : matrix R) (r w v b x y : vector R).
Implicit Types (log : list (diagnostic R)).

(** C1, for at least one estimated parameter.  For an information matrix
    [M] with at least one column, residuals [r], weights [w] and an a-priori inverse covariance
    [P] of dimensions that fit together, the full overload of
    [performLeastSquaresAdjustmentFromInformationMatrix] returns the pair
    [(dx, N)] with [N = P + M^T * diag(w) * M] and [dx] the solution the
    singular value decomposition of [N] gives for the right-hand side
    [M^T * (w .* r)]. *)
Theorem adjustment_returns_solution_and_normal_matrix
    (laws : ScalarLaws R) M r w P v (chk : bool) (max : R) :
  rows M = length r → length w = length r →
  rows P = cols M → cols P = cols M →
  0 < cols M →
  ∃ N g,
    spec_inverseCovariance M w P = Ok N
    ∧ spec_rightHandSide M w r = Ok g
    ∧ ∀ log,
        (performLeastSquaresAdjustmentFromInformationMatrix M r w P v chk max log).1
        = Ok (jacobi_solve N g, N).
Proof using Type.
  intros Hr Hw HrP HcP Hcols.
  destruct (calculateInverse_compatible M w P) as (N & HN & HrN & HcN);
    [congruence | done | done |].
  destruct (rightHandSide_compatible M w r) as (g & Hg & Hlen); [done..|].
  exists N, g. split_and!.
  - rewrite <- calculateInverse_is_spec; [done | done | congruence].
  - done.
  - intros log.
    destruct (adjustment_run M r w P v chk max N g log) as (c & ->);
      [done | done | lia..|done].
Qed.

(** C2, as the code has it.  [calculateCovarianceMatrixWithConsiderParameters]
    makes no test of invertibility: for dimensions that fit together it
    returns [Pnoise + (S * Hc) * Pc * (Hc^T * S^T)], with [Pnoise] whatever
    the backend's [inverse( )] gives for [N = P + M^T * diag(w) * M], also
    when [N] has no inverse. *)
Theorem considerCovariance_returns_for_singular_normal_matrix
    (laws : ScalarLaws R) M w P Hc Pc :
  length w = rows M → rows P = cols M → cols P = cols M →
  rows Hc = rows M → rows Pc = cols Hc → cols Pc = cols Hc →
  (∃ N, spec_inverseCovariance M w P = Ok N ∧ ¬ invertible N) →
  ∃ N Pnoise S' total,
    spec_inverseCovariance M w P = Ok N
    ∧ inverse N = Ok Pnoise
    ∧ spec_sensitivity Pnoise M w = Ok S'
    ∧ spec_considerCovariance Pnoise S' Hc Pc = Ok total
    ∧ calculateCovarianceMatrixWithConsiderParameters M w P Hc Pc = Ok total.
Proof using Type.
  intros Hw HrP HcP HrHc HrPc HcPc _.
  by apply considerCovariance_run.
Qed.

(** C3, as the code has it.  With as many weights as rows,
    [multiplyInformationMatrixByDiagonalWeightMatrix] returns [M] with each
    row [i] scaled by [w[i]].  With another number of weights the function
    makes no test of its own: if [M] has at least one column the product of
    the first column with the weights fails on its size assertion, before
    any coefficient is written; if [M] has no column the loop body never
    runs and the empty matrix is returned. *)
Theorem weighting_by_number_of_weights M w :
  (length w = rows M →
     multiplyInformationMatrixByDiagonalWeightMatrix M w = Ok (scaled_rows M w))
  ∧ (length w ≠ rows M → 0 < cols M →
     multiplyInformationMatrixByDiagonalWeightMatrix M w = Fail DimensionMismatch)
  ∧ (length w ≠ rows M → cols M = 0 →
     multiplyInformationMatrixByDiagonalWeightMatrix M w = Ok (Zero (rows M) 0)).
Proof using Type.
  split_and!.
  - apply multiply_scales_rows.
  - apply multiply_mismatch.
  - intros _. apply multiply_no_columns.
Qed.

(** C4.  For a system [A x = b] of compatible dimensions whose condition
    number [c] is defined: with [checkConditionNumber] set and
    [c > maximumAllowedConditionNumber], [solveSystemOfEquationsWithSvd]
    appends exactly one warning to the diagnostic stream and returns the
    solution of the decomposition; a condition number of any size makes no
    call fail; and with [checkConditionNumber] unset the stream is left as
    it was, for arguments of any dimensions. *)
Theorem solver_warns_once_and_returns A b (max c : R) log :
  (rows A = length b →
   getConditionNumberOfDecomposedMatrix (jacobiSvd A) = Ok c →
     (fgt c max = true →
        solveSystemOfEquationsWithSvd A b true max log
        = (Ok (jacobi_solve A b), log ++ [ConditionNumberWarning c]))
     ∧ (fgt c max = false →
        solveSystemOfEquationsWithSvd A b true max log
        = (Ok (jacobi_solve A b), log))
     ∧ solveSystemOfEquationsWithSvd A b false max log
       = (Ok (jacobi_solve A b), log))
  ∧ (solveSystemOfEquationsWithSvd A b false max log).2 = log.
Proof using Type.
  split; [|apply solve_unchecked_silent].
  intros Hb Hc. split_and!.
  - intros Hgt. rewrite (solve_run A b true max c) by done. by rewrite Hgt.
  - intros Hgt. rewrite (solve_run A b true max c) by done. by rewrite Hgt.
  - by rewrite (solve_run A b false max c).
Qed.

(** C5.  For [M], [w], [P], [Hc], [Pc] of dimensions that fit together and
    [N = P + M^T * diag(w) * M] invertible,
    [calculateCovarianceMatrixWithConsiderParameters] returns
    [Pnoise + (S * Hc) * Pc * (Hc^T * S^T)] with [Pnoise = inverse(N)] and
    [S = Pnoise * (diag(w) * M)^T]. *)
Theorem considerCovariance_formula
    (laws : ScalarLaws R) M w P Hc Pc :
  length w = rows M → rows P = cols M → cols P = cols M →
  rows Hc = rows M → rows Pc = cols Hc → cols Pc = cols Hc →
  (∃ N, spec_inverseCovariance M w P = Ok N ∧ invertible N) →
  ∃ N Pnoise S' total,
    spec_inverseCovariance M w P = Ok N
    ∧ inverse N = Ok Pnoise
    ∧ spec_sensitivity Pnoise M w = Ok S'
    ∧ spec_considerCovariance Pnoise S' Hc Pc = Ok total
    ∧ calculateCovarianceMatrixWithConsiderParameters M w P Hc Pc = Ok total.
Proof using Type.
  intros Hw HrP HcP HrHc HrPc HcPc _.
  by apply considerCovariance_run.
Qed.

(** C6.  The overload without a prior is the full overload at the zero
    matrix of size [cols(M) x cols(M)] (whatever the a-priori estimate
    passed to the latter), and the overload without weights is the weighted
    overload at the all-ones vector of the length of [r]: the same
    computation, diagnostics included. *)
Theorem overloads_substitute_defaults M r w v (chk : bool) (max : R) :
  performLeastSquaresAdjustmentFromInformationMatrix_noPrior M r w chk max
  = performLeastSquaresAdjustmentFromInformationMatrix
      M r w (Zero (cols M) (cols M)) v chk max
  ∧ performLeastSquaresAdjustmentFromInformationMatrix_unweighted M r chk max
    = performLeastSquaresAdjustmentFromInformationMatrix_noPrior
        M r (Constant (length r) fone) chk max.
Proof using Type. split; reflexivity. Qed.

(** C7.  [calculateInverseOfUpdatedCovarianceMatrix(H, w, P0inv)] is
    [P0inv + calculateInverseOfUpdatedCovarianceMatrix(H, w)]: the prior is
    added to the inverse covariance of the observations alone.  Adding the
    zero prior must leave a number as it is. *)
Theorem prior_information_is_additive M w P :
  (∀ a : R, fadd fzero a = a) →
  calculateInverseOfUpdatedCovarianceMatrix M w P
  = (observations ← calculateInverseOfUpdatedCovarianceMatrix_noPrior M w;
     madd P observations).
Proof using Type.
  intros Hzero.
  unfold calculateInverseOfUpdatedCovarianceMatrix_noPrior,
    calculateInverseOfUpdatedCovarianceMatrix.
  destruct (multiplyInformationMatrixByDiagonalWeightMatrix M w) as [W|e] eqn:HW;
    [|done].
  destruct (multiply_shape M w W HW) as [HrW HcW]. cbn.
  destruct (mmul_compatible (transpose M) W) as (X & -> & HrX & HcX);
    [cbn; lia|]. cbn in HrX. cbn.
  assert (madd (Zero (cols M) (cols M)) X
          = Ok (mk_matrix (cols M) (cols M)
                  (λ i j, fadd (coeff (Zero (cols M) (cols M)) i j) (coeff X i j))))
    as ->.
  { unfold madd. by rewrite eigen_assert_true by (cbn; lia). }
  cbn. unfold madd, eigen_assert. cbn.
  destruct (decide (rows P = rows X ∧ cols P = cols X)) as [[HrP HcP]|Hno].
  - rewrite decide_True by lia. cbn. f_equal.
    apply mk_matrix_ext. intros i j Hi Hj.
    rewrite coeff_mk_matrix by lia. unfold Zero.
    rewrite coeff_mk_matrix by lia. by rewrite Hzero.
  - by rewrite decide_False by lia.
Qed.

(** C8.  For samples [x], [y] of equal length and exponents [powers],
    [getLeastSquaresPolynomialFit] builds the information matrix with
    entries [x_i ^ p_j] and returns the first component of the
    least-squares adjustment of that matrix against [y] with unit weights
    and the zero prior. *)
Theorem polynomial_fit_is_unit_weight_adjustment x y (powers : list R) v log :
  length x = length y →
  getLeastSquaresPolynomialFit x y powers log
  = (fst <$> performLeastSquaresAdjustmentFromInformationMatrix
               (spec_polynomialInformationMatrix x powers) y
               (Constant (length y) fone)
               (Zero (length powers) (length powers)) v
               defaultCheckConditionNumber defaultMaximumAllowedConditionNumber)
      log.
Proof using Type.
  intros Hxy. unfold getLeastSquaresPolynomialFit.
  rewrite decide_False by (by intros ?).
  rewrite (polynomial_loop_full x powers (length y)) by done.
  reflexivity.
Qed.

(** C10.  The full overload returns the same pair, and writes the same
    diagnostics, for any two values of [aPrioriAdjustmentEstimate]. *)
Theorem adjustment_ignores_a_priori_estimate
    M r w P (v1 v2 : vector R) (chk : bool) (max : R) :
  performLeastSquaresAdjustmentFromInformationMatrix M r w P v1 chk max
  = performLeastSquaresAdjustmentFromInformationMatrix M r w P v2 chk max.
Proof using Type. reflexivity. Qed.

End Claims.

(** * The claims on concrete inputs *)

Section Evaluations.
Import IntegerInstance.
Open Scope Z_scope.

(** Three observations of two parameters with unit weights and no prior:
    the normal matrix and the right-hand side. *)
Example three_observations_normal_equations :
  calculateInverseOfUpdatedCovarianceMatrix_noPrior
    (of_rows 3 2 [[1; 0]; [0; 1]; [1; 1]]) [1; 1; 1]
  = Ok (of_rows 2 2 [[2; 1]; [1; 2]])
  ∧ spec_rightHandSide (of_rows 3 2 [[1; 0]; [0; 1]; [1; 1]]) [1; 1; 1] [1; 2; 3]
    = Ok [4; 5].
Proof. split; reflexivity. Qed.

(** The information matrix of the fit of [1 + 2 x] on three samples. *)
Example polynomial_information_matrix :
  spec_polynomialInformationMatrix [0; 1; 2] [0; 1]
  = of_rows 3 2 [[1; 0]; [1; 1]; [1; 2]].
Proof. reflexivity. Qed.

(** More independent than dependent values: the message is written and the
    first sample without a row in the matrix is written out of range. *)
Example polynomial_fit_too_many_samples :
  getLeastSquaresPolynomialFit [2; 3] [1] [0] []
  = (Fail IndexOutOfRange, [PolynomialFitSizeError]).
Proof. reflexivity. Qed.

(** Three observations of two parameters, unit weights, no prior. *)
Lemma adjustment_returns_solution_and_normal_matrix_witness :
  ∃ N g,
    spec_inverseCovariance (of_rows 3 2 [[1; 0]; [0; 1]; [1; 1]]) [1; 1; 1] (Zero 2 2)
    = Ok N
    ∧ spec_rightHandSide (of_rows 3 2 [[1; 0]; [0; 1]; [1; 1]]) [1; 1; 1] [1; 2; 3]
      = Ok g
    ∧ ∀ log,
        (performLeastSquaresAdjustmentFromInformationMatrix
           (of_rows 3 2 [[1; 0]; [0; 1]; [1; 1]]) [1; 2; 3] [1; 1; 1] (Zero 2 2)
           [0; 0; 0] true (10 ^ 8) log).1
        = Ok (jacobi_solve N g, N).
Proof.
  apply (adjustment_returns_solution_and_normal_matrix Z_laws);
    [reflexivity | reflexivity | reflexivity | reflexivity | cbn; lia].
Defined.

(** C1 as stated fails for an information matrix without columns: one
    observation, no parameter, dimensions that fit together.  The normal
    matrix is 0 x 0, has no singular value, and the condition-number check
    reads the first one. *)
Lemma adjustment_fails_without_parameters :
  rows (Matrix (R:=Z) 1 0 []) = length [1]
  ∧ length [1] = length [1]
  ∧ rows (Zero (R:=Z) 0 0) = cols (Matrix (R:=Z) 1 0 [])
  ∧ cols (Zero (R:=Z) 0 0) = cols (Matrix (R:=Z) 1 0 [])
  ∧ performLeastSquaresAdjustmentFromInformationMatrix
      (Matrix 1 0 []) [1] [1] (Zero 0 0) [] true (10 ^ 8) []
    = (Fail IndexOutOfRange, []).
Proof. split_and!; reflexivity. Qed.

Lemma considerCovariance_returns_for_singular_normal_matrix_witness :
  ∃ N Pnoise S' total,
    spec_inverseCovariance (of_rows 1 1 [[0]]) [1] (of_rows 1 1 [[0]]) = Ok N
    ∧ inverse N = Ok Pnoise
    ∧ spec_sensitivity Pnoise (of_rows 1 1 [[0]]) [1] = Ok S'
    ∧ spec_considerCovariance Pnoise S' (of_rows 1 1 [[1]]) (of_rows 1 1 [[1]])
      = Ok total
    ∧ calculateCovarianceMatrixWithConsiderParameters
        (of_rows 1 1 [[0]]) [1] (of_rows 1 1 [[0]])
        (of_rows 1 1 [[1]]) (of_rows 1 1 [[1]])
      = Ok total.
Proof.
  apply (considerCovariance_returns_for_singular_normal_matrix Z_laws);
    [reflexivity.. |].
  exists (of_rows 1 1 [[0]]). split; [reflexivity | apply zero_matrix_not_invertible].
Defined.

(** C2 as stated fails: the inverse covariance [[0]] has no inverse, and
    the function returns a matrix. *)
Lemma considerCovariance_returns_without_inverse :
  spec_inverseCovariance (of_rows 1 1 [[0]]) [1] (of_rows 1 1 [[0]])
  = Ok (of_rows 1 1 [[0]])
  ∧ ¬ invertible (of_rows 1 1 [[0]])
  ∧ calculateCovarianceMatrixWithConsiderParameters
      (of_rows 1 1 [[0]]) [1] (of_rows 1 1 [[0]])
      (of_rows 1 1 [[1]]) (of_rows 1 1 [[1]])
    = Ok (of_rows 1 1 [[0]]).
Proof.
  split_and!; [reflexivity | apply zero_matrix_not_invertible | reflexivity].
Qed.

Lemma weighting_by_number_of_weights_witness :
  multiplyInformationMatrixByDiagonalWeightMatrix
    (of_rows 3 2 [[1; 0]; [0; 1]; [1; 1]]) [2; 3; 4]
  = Ok (of_rows 3 2 [[2; 0]; [0; 3]; [4; 4]])
  ∧ multiplyInformationMatrixByDiagonalWeightMatrix
      (of_rows 3 2 [[1; 0]; [0; 1]; [1; 1]]) [2; 3]
    = Fail DimensionMismatch
  ∧ multiplyInformationMatrixByDiagonalWeightMatrix (Matrix 2 0 []) [5]
    = Ok (Zero 2 0).
Proof.
  split_and!.
  - exact (proj1 (weighting_by_number_of_weights
                    (of_rows 3 2 [[1; 0]; [0; 1]; [1; 1]]) [2; 3; 4]) eq_refl).
  - apply (proj1 (proj2 (weighting_by_number_of_weights
                           (of_rows 3 2 [[1; 0]; [0; 1]; [1; 1]]) [2; 3])));
      cbn; lia.
  - apply (proj2 (proj2 (weighting_by_number_of_weights (Matrix 2 0 []) [5])));
      [cbn; lia | reflexivity].
Defined.

(** C3 as stated fails for a matrix without columns: two rows, one weight,
    and the function returns. *)
Lemma weighting_returns_without_columns :
  length [5] ≠ rows (Matrix (R:=Z) 2 0 [])
  ∧ multiplyInformationMatrixByDiagonalWeightMatrix (Matrix 2 0 []) [5]
    = Ok (Matrix 2 0 []).
Proof. split; [cbn; lia | reflexivity]. Qed.

Lemma solver_warns_once_and_returns_witness :
  solveSystemOfEquationsWithSvd (of_rows 1 1 [[1]]) [1] true 0 []
  = (Ok [1], [ConditionNumberWarning 1]).
Proof.
  refine (proj1 (proj1 (solver_warns_once_and_returns
                          (of_rows 1 1 [[1]]) [1] 0 1 []) _ _) _); reflexivity.
Defined.

Lemma considerCovariance_formula_witness :
  ∃ N Pnoise S' total,
    spec_inverseCovariance (of_rows 1 1 [[1]]) [1] (of_rows 1 1 [[0]]) = Ok N
    ∧ inverse N = Ok Pnoise
    ∧ spec_sensitivity Pnoise (of_rows 1 1 [[1]]) [1] = Ok S'
    ∧ spec_considerCovariance Pnoise S' (of_rows 1 1 [[1]]) (of_rows 1 1 [[1]])
      = Ok total
    ∧ calculateCovarianceMatrixWithConsiderParameters
        (of_rows 1 1 [[1]]) [1] (of_rows 1 1 [[0]])
        (of_rows 1 1 [[1]]) (of_rows 1 1 [[1]])
      = Ok total.
Proof.
  apply (considerCovariance_formula Z_laws); [reflexivity.. |].
  exists (of_rows 1 1 [[1]]). split; [reflexivity|].
  exists (of_rows 1 1 [[1]]). split; reflexivity.
Defined.

Lemma prior_information_is_additive_witness :
  calculateInverseOfUpdatedCovarianceMatrix
    (of_rows 3 2 [[1; 0]; [0; 1]; [1; 1]]) [2; 3; 4] (of_rows 2 2 [[5; 0]; [0; 7]])
  = (observations ← calculateInverseOfUpdatedCovarianceMatrix_noPrior
                      (of_rows 3 2 [[1; 0]; [0; 1]; [1; 1]]) [2; 3; 4];
     madd (of_rows 2 2 [[5; 0]; [0; 7]]) observations).
Proof.
  apply (prior_information_is_additive
           (of_rows 3 2 [[1; 0]; [0; 1]; [1; 1]]) [2; 3; 4]
           (of_rows 2 2 [[5; 0]; [0; 7]])).
  intros a. apply Z.add_0_l.
Defined.

Lemma polynomial_fit_is_unit_weight_adjustment_witness :
  getLeastSquaresPolynomialFit [0; 1; 2] [1; 3; 5] [0; 1] []
  = (fst <$> performLeastSquaresAdjustmentFromInformationMatrix
               (spec_polynomialInformationMatrix [0; 1; 2] [0; 1]) [1; 3; 5]
               (Constant (length [1; 3; 5]) fone)
               (Zero (length [0; 1]) (length [0; 1])) []
               defaultCheckConditionNumber defaultMaximumAllowedConditionNumber)
      [].
Proof.
  exact (polynomial_fit_is_unit_weight_adjustment
           [0; 1; 2] [1; 3; 5] [0; 1] [] [] eq_refl).
Defined.

(** C9 on the code.  One sample [x = (2)], two values [y = (1, 3)], the
    constant polynomial: the message is written and the fit goes on, with
    a zero row for the missing sample, to return the coefficient [1]. *)
Theorem polynomial_fit_goes_on_after_size_error :
  getLeastSquaresPolynomialFit [2] [1; 3] [0] []
  = (Ok [1], [PolynomialFitSizeError]).
Proof. reflexivity. Qed.

End Evaluations.

(** * Further properties of the code *)

(** ** Well-formed storage *)

Section ShapeFacts.
Context {R : Type} `{Scalar R}.
Implicit Types (M P W : matrix R) (w : vector R).

Lemma well_formed_mk_matrix r c (f : nat → nat → R) : well_formed (mk_matrix r c f).
Proof.
  split; cbn.
  - by rewrite length_fmap, length_seq.
  - apply Forall_fmap, Forall_forall. intros j _. cbn.
    by rewrite length_fmap, length_seq.
Qed.

(** A well-formed matrix is given by its coefficients. *)
Lemma well_formed_canonical M :
  well_formed M → M = mk_matrix (rows M) (cols M) (coeff M).
Proof.
  destruct M as [r c d]. intros [Hlen Hcols]. cbn in *. unfold mk_matrix.
  f_equal. apply list_eq. intros j. rewrite lookup_fmap_seq.
  case_decide as Hj.
  - destruct (lookup_lt_is_Some_2 d j) as [column Hcolumn]; [lia|].
    rewrite Hcolumn. f_equal.
    assert (length column = r) as Hr.
    { rewrite Forall_forall in Hcols. apply Hcols.
      by apply list_elem_of_lookup_2 in Hcolumn. }
    apply list_eq. intros i. rewrite lookup_fmap_seq. unfold coeff. cbn.
    rewrite Hcolumn. cbn. case_decide as Hi.
    + destruct (lookup_lt_is_Some_2 column i) as [a Ha]; [lia|]. by rewrite Ha.
    + apply lookup_ge_None_2. lia.
  - apply lookup_ge_None_2. lia.
Qed.

Lemma vcoeff_replicate n (a : R) i : i < n → vcoeff (replicate n a) i = a.
Proof. intros Hi. unfold vcoeff. by rewrite lookup_replicate_2. Qed.

(** Sums of products that agree term by term. *)
Lemma dot_ext n (f g f' g' : nat → R) :
  (∀ k, k < n → fmul (f k) (g k) = fmul (f' k) (g' k)) →
  dot n f g = dot n f' g'.
Proof.
  intros Hext. unfold dot. generalize (@fzero R _).
  assert (∀ k, k ∈ seq 0 n → fmul (f k) (g k) = fmul (f' k) (g' k)) as Hin.
  { intros k Hk. apply Hext. apply elem_of_seq in Hk. lia. }
  clear Hext. induction (seq 0 n) as [|k l IH]; intros acc; [done|].
  cbn. rewrite Hin by left. apply IH. intros k' Hk'. apply Hin. by right.
Qed.

End ShapeFacts.

(** ** More on weighting *)

Section WeightingMore.
Context {R : Type} `{Scalar R}.
Implicit Types (M P W : matrix R) (w : vector R).

(** The two ways a call of the weighting ends. *)
Lemma multiply_outcomes M w :
  (∀ W, multiplyInformationMatrixByDiagonalWeightMatrix M w = Ok W →
        rows W = rows M ∧ cols W = cols M ∧ well_formed W
        ∧ (length w = rows M ∨ cols M = 0))
  ∧ (∀ e, multiplyInformationMatrixByDiagonalWeightMatrix M w = Fail e →
          e = DimensionMismatch ∧ length w ≠ rows M ∧ 0 < cols M).
Proof.
  destruct (decide (length w = rows M)) as [Hw|Hw].
  - rewrite multiply_scales_rows by done. split; [|done].
    intros W [= <-]. split_and!; [done | done | apply well_formed_mk_matrix | by left].
  - destruct (decide (0 < cols M)) as [Hc|Hc].
    + rewrite multiply_mismatch by done. split; [done|]. by intros e [= <-].
    + rewrite multiply_no_columns by lia. split; [|done].
      intros W [= <-]. split_and!; [done | cbn; lia | apply well_formed_mk_matrix | right; lia].
Qed.

(** Whatever the weights, a matrix returned by
    [multiplyInformationMatrixByDiagonalWeightMatrix] has the rows and
    columns of its argument and well-formed storage, and it is returned only
    for as many weights as rows or for a matrix without columns; the one
    failure is the size assertion, met for a wrong number of weights and at
    least one column. *)
Theorem weighting_outcomes M w :
  (∀ W, multiplyInformationMatrixByDiagonalWeightMatrix M w = Ok W →
        rows W = rows M ∧ cols W = cols M ∧ well_formed W
        ∧ (length w = rows M ∨ cols M = 0))
  ∧ (∀ e, multiplyInformationMatrixByDiagonalWeightMatrix M w = Fail e →
          e = DimensionMismatch ∧ length w ≠ rows M ∧ 0 < cols M).
Proof. apply multiply_outcomes. Qed.

(** With a weight of one for every row the matrix comes back as it is. *)
Theorem unit_weights_leave_matrix M :
  well_formed M →
  (∀ a : R, fmul a fone = a) →
  multiplyInformationMatrixByDiagonalWeightMatrix M (Constant (rows M) fone) = Ok M.
Proof.
  intros Hwf Hone. rewrite multiply_scales_rows by apply length_replicate.
  f_equal. rewrite (well_formed_canonical M Hwf) at 3.
  apply mk_matrix_ext. intros i j Hi Hj.
  unfold Constant. by rewrite vcoeff_replicate, Hone.
Qed.


End WeightingMore.

(** ** More on the inverse covariance *)

Section InverseCovarianceMore.
Context {R : Type} `{Scalar R}.
Implicit Types (M P N W : matrix R) (w : vector R).


(** What a returned inverse covariance is made of: the prior is square of
    the size of the parameter vector, and the coefficients are those of the
    prior plus those of [M^T * W], with [W] the weighted matrix. *)
Lemma calculateInverse_returned M w P N :
  calculateInverseOfUpdatedCovarianceMatrix M w P = Ok N →
  ∃ W, multiplyInformationMatrixByDiagonalWeightMatrix M w = Ok W
       ∧ rows P = cols M ∧ cols P = cols M
       ∧ N = mk_matrix (cols M) (cols M)
               (λ i j, fadd (coeff P i j)
                            (dot (rows M) (λ k, coeff M k i) (λ k, coeff W k j))).
Proof.
  unfold calculateInverseOfUpdatedCovarianceMatrix.
  destruct (multiplyInformationMatrixByDiagonalWeightMatrix M w) as [W|e] eqn:HW;
    [|done].
  destruct (proj1 (multiply_outcomes M w) W HW) as (HrW & HcW & _ & _).
  unfold mbind, outcome_bind, mmul.
  rewrite eigen_assert_true by (cbn; lia).
  unfold madd, eigen_assert. cbn.
  destruct (decide _) as [[HrP HcP]|]; [|done].
  intros [= <-]. exists W. split_and!; [done | lia | lia |].
  rewrite HrP, HcP, HcW. apply mk_matrix_ext. intros i j Hi Hj.
  rewrite coeff_mk_matrix by lia. f_equal.
  apply dot_ext. intros k Hk. unfold transpose. by rewrite coeff_mk_matrix.
Qed.


(** The two ways a call of [calculateInverseOfUpdatedCovarianceMatrix]
    ends. *)
Lemma calculateInverse_outcomes M w P :
  ((length w = rows M ∨ cols M = 0) ∧ rows P = cols M ∧ cols P = cols M →
   ∃ N, calculateInverseOfUpdatedCovarianceMatrix M w P = Ok N
        ∧ rows N = cols M ∧ cols N = cols M ∧ well_formed N)
  ∧ (¬ ((length w = rows M ∨ cols M = 0) ∧ rows P = cols M ∧ cols P = cols M) →
     calculateInverseOfUpdatedCovarianceMatrix M w P = Fail DimensionMismatch).
Proof.
  unfold calculateInverseOfUpdatedCovarianceMatrix.
  destruct (multiplyInformationMatrixByDiagonalWeightMatrix M w) as [W|e] eqn:HW.
  - destruct (proj1 (multiply_outcomes M w) W HW) as (HrW & HcW & _ & Hfit).
    unfold mbind, outcome_bind, mmul.
    rewrite eigen_assert_true by (cbn; lia).
    unfold madd, eigen_assert. cbn. split.
    + intros (_ & HrP & HcP). rewrite decide_True by lia.
      eexists. split_and!; [done | cbn; lia | cbn; lia | apply well_formed_mk_matrix].
    + intros Hno. rewrite decide_False; [done|]. intros [HrP HcP].
      apply Hno. split_and!; [done | lia | lia].
  - destruct (proj2 (multiply_outcomes M w) e HW) as (-> & Hw & Hc).
    split; [|done]. intros ([?|?] & _); lia.
Qed.

(** [calculateInverseOfUpdatedCovarianceMatrix] returns exactly when the
    weights fit the rows (or there is no column to weight) and the prior is
    square of the size of the parameter vector; the result is then a
    well-formed square matrix of that size.  In every other case the call
    ends in a size assertion. *)
Theorem inverse_covariance_outcomes M w P :
  ((length w = rows M ∨ cols M = 0) ∧ rows P = cols M ∧ cols P = cols M →
   ∃ N, calculateInverseOfUpdatedCovarianceMatrix M w P = Ok N
        ∧ rows N = cols M ∧ cols N = cols M ∧ well_formed N)
  ∧ (¬ ((length w = rows M ∨ cols M = 0) ∧ rows P = cols M ∧ cols P = cols M) →
     calculateInverseOfUpdatedCovarianceMatrix M w P = Fail DimensionMismatch).
Proof. apply calculateInverse_outcomes. Qed.

End InverseCovarianceMore.

(** ** More on the solver *)

Section SolverMore.
Context {R : Type} `{Scalar R} `{EigenBackend R}.
Implicit Types (A : matrix R) (b : vector R) (log : list (diagnostic R)).

(** What a call of the solver writes, whatever its arguments. *)
Lemma solve_log A b (chk : bool) (max : R) log :
  ∃ rest,
    (solveSystemOfEquationsWithSvd A b chk max log).2 = log ++ rest
    ∧ (rest = []
       ∨ ∃ c, rest = [ConditionNumberWarning c] ∧ chk = true
              ∧ getConditionNumberOfDecomposedMatrix (jacobiSvd A) = Ok c
              ∧ fgt c max = true).
Proof.
  unfold solveSystemOfEquationsWithSvd, mbind, Eff_bind, lift.
  destruct chk; cbn.
  - destruct (getConditionNumberOfDecomposedMatrix (jacobiSvd A)) as [c|e] eqn:Hc.
    + destruct (fgt c max) eqn:Hgt; cbn.
      * exists [ConditionNumberWarning c].
        destruct (svd_solve (jacobiSvd A) b); cbn; split; eauto 10.
      * exists []. rewrite app_nil_r.
        destruct (svd_solve (jacobiSvd A) b); cbn; split; eauto.
    + exists []. rewrite app_nil_r. cbn. eauto.
  - exists []. rewrite app_nil_r.
    destruct (svd_solve (jacobiSvd A) b); cbn; split; eauto.
Qed.

(** The condition number of a matrix is the ratio of its first to its last
    singular value when it has at least one row and one column; for a matrix
    without rows or without columns the call fails on reading the first
    singular value. *)
Theorem condition_number_of_information_matrix A :
  (0 < rows A → 0 < cols A →
   getConditionNumberOfInformationMatrix A
   = Ok (fdiv (jacobi_singular_value A 0)
              (jacobi_singular_value A (pred (rows A `min` cols A)))))
  ∧ (rows A = 0 ∨ cols A = 0 →
     getConditionNumberOfInformationMatrix A = Fail IndexOutOfRange).
Proof.
  unfold getConditionNumberOfInformationMatrix, getSVDDecompositionOfInformationMatrix.
  split.
  - apply conditionNumber_defined.
  - apply conditionNumber_undefined.
Qed.

(** For any arguments, [solveSystemOfEquationsWithSvd] keeps what was
    written before and appends at most one diagnostic: the warning, and only
    with the check on and a condition number above the maximum. *)
Theorem solver_writes_at_most_one_warning A b (chk : bool) (max : R) log :
  ∃ rest,
    (solveSystemOfEquationsWithSvd A b chk max log).2 = log ++ rest
    ∧ (rest = []
       ∨ ∃ c, rest = [ConditionNumberWarning c] ∧ chk = true
              ∧ getConditionNumberOfDecomposedMatrix (jacobiSvd A) = Ok c
              ∧ fgt c max = true).
Proof. apply solve_log. Qed.

(** A right-hand side whose length is not the number of rows is met only by
    the solve itself, after the condition number was checked: the call
    fails, and the warning of an ill-conditioned matrix is written all the
    same. *)
Theorem solver_rejects_right_hand_side_after_check
    A b (chk : bool) (max c : R) log :
  rows A ≠ length b →
  getConditionNumberOfDecomposedMatrix (jacobiSvd A) = Ok c →
  solveSystemOfEquationsWithSvd A b chk max log
  = (Fail DimensionMismatch,
     if chk && fgt c max then log ++ [ConditionNumberWarning c] else log).
Proof.
  intros Hb Hc. unfold solveSystemOfEquationsWithSvd, mbind, Eff_bind, lift.
  assert (svd_solve (jacobiSvd A) b = Fail DimensionMismatch) as Hsolve.
  { unfold svd_solve. by rewrite eigen_assert_false. }
  destruct chk; cbn.
  - rewrite Hc. destruct (fgt c max); cbn; by rewrite Hsolve.
  - by rewrite Hsolve.
Qed.

Lemma solve_checked_empty A b (max : R) log :
  rows A = 0 ∨ cols A = 0 →
  solveSystemOfEquationsWithSvd A b true max log = (Fail IndexOutOfRange, log).
Proof.
  intros Hempty. unfold solveSystemOfEquationsWithSvd, mbind, Eff_bind, lift. cbn.
  by rewrite conditionNumber_undefined.
Qed.

(** With the check on, a matrix without rows or without columns makes the
    call fail before anything is written or solved, whatever the right-hand
    side. *)
Theorem solver_fails_on_empty_matrix_with_check A b (max : R) log :
  rows A = 0 ∨ cols A = 0 →
  solveSystemOfEquationsWithSvd A b true max log = (Fail IndexOutOfRange, log).
Proof. apply solve_checked_empty. Qed.

End SolverMore.

(** ** More on the adjustment *)

Section AdjustmentMore.
Context {R : Type} `{Scalar R} `{EigenBackend R}.
Implicit Types (M P N : matrix R) (r w v g : vector R).
Implicit Types (log : list (diagnostic R)).

(** When the right-hand side is defined. *)
Lemma rightHandSide_returned M w r g :
  spec_rightHandSide M w r = Ok g →
  length w = length r ∧ rows M = length r ∧ length g = cols M.
Proof.
  unfold spec_rightHandSide, cwiseProduct, eigen_assert.
  destruct (decide (length w = length r)) as [Hw|]; [|done]. cbn.
  unfold mvmul, eigen_assert. cbn.
  destruct (decide _) as [Hr|]; [|done]. cbn. intros [= <-].
  rewrite length_zip_with in Hr. rewrite length_fmap, length_seq.
  split_and!; [done | lia | done].
Qed.

Lemma rightHandSide_rejected M w r :
  ¬ (length w = length r ∧ rows M = length r) →
  spec_rightHandSide M w r = Fail DimensionMismatch.
Proof.
  intros Hno. unfold spec_rightHandSide, cwiseProduct, eigen_assert.
  destruct (decide (length w = length r)) as [Hw|]; [|done]. cbn.
  unfold mvmul, eigen_assert. cbn.
  rewrite decide_False; [done|]. rewrite length_zip_with. intros Hr.
  apply Hno. split; [done | lia].
Qed.

(** What a call of the full overload writes, whatever its arguments. *)
Lemma adjustment_log M r w P v (chk : bool) (max : R) log :
  ∃ rest,
    (performLeastSquaresAdjustmentFromInformationMatrix M r w P v chk max log).2
    = log ++ rest
    ∧ (rest = [] ∨ ∃ c, rest = [ConditionNumberWarning c]).
Proof.
  unfold performLeastSquaresAdjustmentFromInformationMatrix.
  change (weightedResiduals ← cwiseProduct w r; mvmul (transpose M) weightedResiduals)
    with (spec_rightHandSide M w r).
  unfold mbind at 1. unfold Eff_bind, lift.
  destruct (spec_rightHandSide M w r) as [g|e];
    [|exists []; rewrite app_nil_r; eauto].
  unfold mbind at 1. unfold Eff_bind.
  destruct (calculateInverseOfUpdatedCovarianceMatrix M w P) as [N|e];
    [|exists []; rewrite app_nil_r; eauto].
  unfold mbind at 1. unfold Eff_bind.
  destruct (solve_log N g chk max log) as (rest & Hrest & Hcases).
  exists rest. split.
  - destruct (solveSystemOfEquationsWithSvd N g chk max log) as [[dx|e] log'];
      cbn in *; done.
  - destruct Hcases as [->|(c & -> & _)]; eauto.
Qed.

(** Arguments whose dimensions do not fit together end the full overload in
    a size assertion before anything is written: the weights and the
    residuals must have the length of the rows of [M], and the prior must be
    square of the size of the parameter vector. *)
Theorem adjustment_rejects_dimensions M r w P v (chk : bool) (max : R) log :
  ¬ (length w = length r ∧ rows M = length r
     ∧ rows P = cols M ∧ cols P = cols M) →
  performLeastSquaresAdjustmentFromInformationMatrix M r w P v chk max log
  = (Fail DimensionMismatch, log).
Proof.
  intros Hno. unfold performLeastSquaresAdjustmentFromInformationMatrix.
  change (weightedResiduals ← cwiseProduct w r; mvmul (transpose M) weightedResiduals)
    with (spec_rightHandSide M w r).
  unfold mbind at 1. unfold Eff_bind, lift.
  destruct (spec_rightHandSide M w r) as [g|e] eqn:Hg.
  - destruct (rightHandSide_returned M w r g Hg) as (Hw & Hr & _).
    unfold mbind at 1. unfold Eff_bind.
    rewrite (proj2 (calculateInverse_outcomes M w P)); [done|].
    intros (_ & HrP & HcP). by apply Hno.
  - destruct (decide (length w = length r ∧ rows M = length r)) as [Hfit|Hfit].
    + destruct (rightHandSide_compatible M w r) as (g & Hg' & _); [tauto.. |].
      congruence.
    + rewrite rightHandSide_rejected in Hg by done. by injection Hg as <-.
Qed.

(** A pair returned by the full overload: its second component is the
    inverse covariance of [M], [w] and [P], square of the size of the
    parameter vector; its first component is the solution the decomposition
    of that matrix gives for the right-hand side; the dimensions fit
    together; with the check on there is at least one parameter; and at most
    the warning was written. *)
Theorem adjustment_returned M r w P v (chk : bool) (max : R) log dx N log' :
  performLeastSquaresAdjustmentFromInformationMatrix M r w P v chk max log
  = (Ok (dx, N), log') →
  calculateInverseOfUpdatedCovarianceMatrix M w P = Ok N
  ∧ (∃ g, spec_rightHandSide M w r = Ok g ∧ dx = jacobi_solve N g)
  ∧ rows N = cols M ∧ cols N = cols M
  ∧ length w = length r ∧ rows M = length r
  ∧ (chk = true → 0 < cols M)
  ∧ (log' = log ∨ ∃ c, log' = log ++ [ConditionNumberWarning c]).
Proof.
  intros Hrun.
  destruct (adjustment_log M r w P v chk max log) as (rest & Hlog & Hrest).
  rewrite Hrun in Hlog. cbn in Hlog.
  revert Hrun. unfold performLeastSquaresAdjustmentFromInformationMatrix.
  change (weightedResiduals ← cwiseProduct w r; mvmul (transpose M) weightedResiduals)
    with (spec_rightHandSide M w r).
  unfold mbind at 1. unfold Eff_bind, lift.
  destruct (spec_rightHandSide M w r) as [g|e] eqn:Hg; [|done].
  destruct (rightHandSide_returned M w r g Hg) as (Hw & Hr & Hlen).
  unfold mbind at 1. unfold Eff_bind.
  destruct (calculateInverseOfUpdatedCovarianceMatrix M w P) as [N'|e] eqn:HN;
    [|done].
  destruct (calculateInverse_returned M w P N' HN) as (W & _ & _ & _ & HN').
  unfold mbind at 1. unfold Eff_bind.
  destruct (solveSystemOfEquationsWithSvd N' g chk max log) as [[dx'|e] log'']
    eqn:Hsolve; [|done].
  cbn. intros [= <- <- <-].
  assert (chk = true → 0 < cols M) as Hcols.
  { intros ->. destruct (decide (0 < cols M)) as [|Hzero]; [done|]. exfalso.
    rewrite solve_checked_empty in Hsolve; [done|].
    left. rewrite HN'. cbn. lia. }
  assert (dx' = jacobi_solve N' g) as ->.
  { revert Hsolve. unfold solveSystemOfEquationsWithSvd, mbind, Eff_bind, lift.
    destruct chk; cbn.
    - destruct (getConditionNumberOfDecomposedMatrix (jacobiSvd N')) as [c|]; [|done].
      destruct (fgt c max); cbn; unfold svd_solve, eigen_assert;
        destruct (decide _); cbn; congruence.
    - unfold svd_solve, eigen_assert. destruct (decide _); cbn; congruence. }
  split_and!; try done.
  - by exists g.
  - rewrite HN'. done.
  - rewrite HN'. done.
  - rewrite Hlog.
    destruct Hrest as [->|(c & ->)]; [left; by rewrite app_nil_r | right; by exists c].
Qed.

End AdjustmentMore.

(** ** Ordinary least squares *)

Section OrdinaryLeastSquares.
Context {R : Type} `{Scalar R} `{EigenBackend R} `{AdjustmentDefaults R}.
Implicit Types (M P N : matrix R) (r w v g x y : vector R).
Implicit Types (log : list (diagnostic R)).

(** With unit weights and the zero prior the normal matrix is [M^T * M] and
    the right-hand side [M^T * r], for a one that is neutral for the
    multiplication and a zero that is neutral on the left of the addition. *)
Lemma unit_weights_normal_equations M r :
  (∀ a : R, fmul a fone = a) → (∀ a : R, fmul fone a = a) →
  (∀ a : R, fadd fzero a = a) →
  rows M = length r →
  calculateInverseOfUpdatedCovarianceMatrix M (Constant (length r) fone)
    (Zero (cols M) (cols M))
  = mmul (transpose M) M
  ∧ spec_rightHandSide M (Constant (length r) fone) r = mvmul (transpose M) r.
Proof.
  intros Hone_r Hone_l Hzero Hr. split.
  - rewrite calculateInverse_value by (by rewrite length_replicate).
    unfold mmul. rewrite !eigen_assert_true by done.
    unfold mbind, outcome_bind, madd.
    rewrite eigen_assert_true by done.
    unfold mbind, outcome_bind.
    f_equal. apply mk_matrix_ext. intros i j Hi Hj. cbn in Hi, Hj.
    unfold Zero at 1. rewrite !coeff_mk_matrix by done. rewrite Hzero.
    apply dot_ext. intros k Hk. cbn in Hk. f_equal.
    unfold scaled_rows, Constant. rewrite coeff_mk_matrix by done.
    by rewrite vcoeff_replicate, Hone_r by lia.
  - unfold spec_rightHandSide.
    rewrite cwiseProduct_vectors by apply length_replicate.
    unfold mbind, outcome_bind. f_equal.
    etrans; [|apply (mk_vector_id r)].
    unfold Constant. rewrite length_replicate.
    apply mk_vector_ext. intros i Hi.
    by rewrite vcoeff_replicate, Hone_l.
Qed.

(** One run of the overload without weights. *)
Lemma unweighted_run M r (chk : bool) (max : R) log :
  (∀ a : R, fmul a fone = a) → (∀ a : R, fmul fone a = a) →
  (∀ a : R, fadd fzero a = a) →
  rows M = length r → 0 < cols M →
  ∃ N g c,
    mmul (transpose M) M = Ok N
    ∧ mvmul (transpose M) r = Ok g
    ∧ performLeastSquaresAdjustmentFromInformationMatrix_unweighted M r chk max log
      = (Ok (jacobi_solve N g, N),
         if chk && fgt c max then log ++ [ConditionNumberWarning c] else log).
Proof.
  intros Hone_r Hone_l Hzero Hr Hc.
  destruct (unit_weights_normal_equations M r) as [HN Hg]; [done..|].
  destruct (mmul_compatible (transpose M) M) as (N & HN' & HrN & HcN); [done|].
  cbn in HrN.
  destruct (rightHandSide_compatible M (Constant (length r) fone) r)
    as (g & Hg' & Hlen); [by rewrite length_replicate | done |].
  unfold performLeastSquaresAdjustmentFromInformationMatrix_unweighted,
    performLeastSquaresAdjustmentFromInformationMatrix_noPrior.
  destruct (adjustment_run M r (Constant (length r) fone) (Zero (cols M) (cols M))
              (ZeroVector (length r)) chk max N g log) as (c & Hrun);
    [congruence | done | lia..|].
  exists N, g, c. split_and!; [done | congruence | done].
Qed.

(** For residuals of the length of the rows of [M] and at least one
    parameter, the overload without weights and prior returns the solution
    of the ordinary normal equations [(M^T * M) dx = M^T * r] together with
    [M^T * M]. *)
Theorem unweighted_adjustment_is_ordinary_least_squares
    M r (chk : bool) (max : R) :
  (∀ a : R, fmul a fone = a) → (∀ a : R, fmul fone a = a) →
  (∀ a : R, fadd fzero a = a) →
  rows M = length r → 0 < cols M →
  ∃ N g,
    mmul (transpose M) M = Ok N
    ∧ mvmul (transpose M) r = Ok g
    ∧ ∀ log,
        (performLeastSquaresAdjustmentFromInformationMatrix_unweighted
           M r chk max log).1
        = Ok (jacobi_solve N g, N).
Proof.
  intros Hone_r Hone_l Hzero Hr Hc.
  destruct (unweighted_run M r chk max [] Hone_r Hone_l Hzero Hr Hc)
    as (N & g & _ & HN & Hg & _).
  exists N, g. split_and!; [done..|]. intros log.
  destruct (unweighted_run M r chk max log Hone_r Hone_l Hzero Hr Hc)
    as (N' & g' & c & HN' & Hg' & ->).
  cbn. congruence.
Qed.

(** For as many independent as dependent values and at least one power,
    [getLeastSquaresPolynomialFit] returns the solution of the normal
    equations [(V^T * V) c = V^T * y] of the matrix [V] of the powers of the
    samples, and writes no size error: at most the warning of the solver. *)
Theorem polynomial_fit_solves_normal_equations x y (powers : list R) log :
  (∀ a : R, fmul a fone = a) → (∀ a : R, fmul fone a = a) →
  (∀ a : R, fadd fzero a = a) →
  length x = length y → 0 < length powers →
  ∃ N g c,
    mmul (transpose (spec_polynomialInformationMatrix x powers))
         (spec_polynomialInformationMatrix x powers) = Ok N
    ∧ mvmul (transpose (spec_polynomialInformationMatrix x powers)) y = Ok g
    ∧ getLeastSquaresPolynomialFit x y powers log
      = (Ok (jacobi_solve N g),
         if defaultCheckConditionNumber && fgt c defaultMaximumAllowedConditionNumber
         then log ++ [ConditionNumberWarning c] else log).
Proof.
  intros Hone_r Hone_l Hzero Hxy Hk.
  destruct (unweighted_run (spec_polynomialInformationMatrix x powers) y
              defaultCheckConditionNumber defaultMaximumAllowedConditionNumber log)
    as (N & g & c & HN & Hg & Hrun); [done.. |].
  exists N, g, c. split_and!; [done..|].
  unfold getLeastSquaresPolynomialFit.
  rewrite decide_False by (by intros ?).
  rewrite (polynomial_loop_full x powers (length y)) by done.
  unfold mbind at 1. unfold Eff_bind, mret, Eff_ret.
  unfold mbind at 1. unfold Eff_bind, lift.
  unfold fmap, Eff_fmap. by rewrite Hrun.
Qed.

End OrdinaryLeastSquares.

(** ** More on the polynomial fit *)

Section PolynomialFitMore.
Context {R : Type} `{Scalar R} `{EigenBackend R} `{AdjustmentDefaults R}.
Implicit Types (x y : vector R) (powers : list R) (log : list (diagnostic R)).

Lemma for_each_app {S : Type} (body : nat → S → outcome S) (l1 l2 : list nat) (s : S) :
  for_each body (l1 ++ l2) s
  = match for_each body l1 s with
    | Ok s' => for_each body l2 s'
    | Fail e => Fail e
    end.
Proof.
  revert s. induction l1 as [|i l1 IH]; intros s; [done|].
  cbn. destruct (body i s); [apply IH | done].
Qed.

(** For any samples and powers, [getLeastSquaresPolynomialFit] keeps what
    was written before, appends its size error exactly when the numbers of
    independent and dependent values differ, and after it at most the
    warning of the solver. *)
Theorem polynomial_fit_diagnostics x y powers log :
  ∃ rest,
    (getLeastSquaresPolynomialFit x y powers log).2
    = log ++ (if decide (length x ≠ length y) then [PolynomialFitSizeError] else [])
          ++ rest
    ∧ (rest = [] ∨ ∃ c, rest = [ConditionNumberWarning c]).
Proof.
  unfold getLeastSquaresPolynomialFit.
  set (loop := for_loop (length x) _ _).
  set (written := if decide (length x ≠ length y)
                  then [PolynomialFitSizeError] else []).
  unfold mbind at 1. unfold Eff_bind.
  assert ((if decide (length x ≠ length y)
           then cerr PolynomialFitSizeError else mret ()) log
          = (Ok (), log ++ written)) as ->.
  { subst written. destruct (decide _); [done|].
    unfold mret, Eff_ret. by rewrite app_nil_r. }
  unfold mbind at 1. unfold Eff_bind, lift.
  destruct loop as [partialMatrix|e]; [|exists []; by rewrite !app_nil_r; eauto].
  unfold fmap, Eff_fmap,
    performLeastSquaresAdjustmentFromInformationMatrix_unweighted,
    performLeastSquaresAdjustmentFromInformationMatrix_noPrior.
  destruct (adjustment_log partialMatrix y (Constant (length y) fone)
              (Zero (cols partialMatrix) (cols partialMatrix))
              (ZeroVector (length y)) defaultCheckConditionNumber
              defaultMaximumAllowedConditionNumber (log ++ written))
    as (rest & Hrest & Hcases).
  exists rest. split; [|done].
  destruct (performLeastSquaresAdjustmentFromInformationMatrix _ _ _ _ _ _ _ _)
    as [[result|e] log']; cbn in *; by rewrite Hrest, app_assoc.
Qed.

(** With more independent than dependent values and at least one power, the
    size error is written and the loop then writes the first sample that has
    no row outside the matrix: the call fails. *)
Theorem polynomial_fit_fails_on_long_samples x y powers log :
  length y < length x → 0 < length powers →
  getLeastSquaresPolynomialFit x y powers log
  = (Fail IndexOutOfRange, log ++ [PolynomialFitSizeError]).
Proof.
  intros Hxy Hk. unfold getLeastSquaresPolynomialFit.
  rewrite decide_True by lia.
  set (body := λ (i : nat) (partialMatrix : matrix R),
         for_loop (length powers)
           (λ j partialMatrix,
              xi ← vector_at x i;
              p ← vector_at powers j;
              set_coeff partialMatrix i j (fpow xi p))
           partialMatrix).
  assert (for_loop (length x) body (Zero (length y) (length powers))
          = Fail IndexOutOfRange) as Hloop.
  { unfold for_loop.
    replace (length x) with (length y + Datatypes.S (length x - Datatypes.S (length y)))
      by lia.
    rewrite seq_app, for_each_app.
    destruct (for_each_invariant
      (λ _ M, rows M = length y ∧ cols M = length powers)
      body (length y) 0 (Zero (length y) (length powers)))
      as (M & -> & HrM & HcM); [done | |].
    - intros i M Hi [HrM HcM]. subst body. cbn beta.
      apply (for_loop_invariant (λ _ M, rows M = length y ∧ cols M = length powers));
        [done|].
      intros j M' Hj [HrM' HcM'].
      rewrite !vector_at_lt by lia. cbn.
      unfold set_coeff. rewrite eigen_assert_true by lia. cbn. by eexists.
    - cbn [seq for_each Nat.add]. subst body. cbn beta. unfold for_loop.
      destruct (length powers) as [|k] eqn:Ek; [lia|]. cbn [seq for_each].
      rewrite !vector_at_lt by lia. cbn.
      unfold set_coeff. rewrite eigen_assert_false by lia. done. }
  unfold mbind at 1. unfold Eff_bind, cerr.
  unfold mbind at 1. unfold Eff_bind, lift.
  fold body. by rewrite Hloop.
Qed.

End PolynomialFitMore.

(** ** More on the covariance with consider parameters *)

Section ConsiderCovarianceMore.
Context {R : Type} `{Scalar R} `{EigenBackend R}.
Implicit Types (M P N Hc Pc Pnoise : matrix R) (w : vector R).

(** A sum of products that all vanish. *)
Lemma dot_vanishing n (a g : nat → R) :
  (∀ c : R, fadd c fzero = c) →
  (∀ k, k < n → fmul (a k) (g k) = fzero) →
  dot n a g = fzero.
Proof.
  intros Hzero Hterms. unfold dot.
  assert (∀ k, k ∈ seq 0 n → fmul (a k) (g k) = fzero) as Hin.
  { intros k Hk. apply Hterms. apply elem_of_seq in Hk. lia. }
  clear Hterms. generalize (@fzero R _).
  induction (seq 0 n) as [|k l IH]; intros acc; [done|].
  cbn. rewrite Hin by left. rewrite Hzero. apply IH.
  intros k' Hk'. apply Hin. by right.
Qed.

(** After the inverse covariance [N], the function inverts it and goes on
    with the products of the consider parameters. *)
Lemma considerCovariance_chain M w P Hc Pc N :
  calculateInverseOfUpdatedCovarianceMatrix M w P = Ok N →
  ∃ Pnoise S',
    inverse N = Ok Pnoise
    ∧ Pnoise = mk_matrix (cols M) (cols M) (coeff Pnoise)
    ∧ rows S' = cols M ∧ cols S' = rows M
    ∧ calculateCovarianceMatrixWithConsiderParameters M w P Hc Pc
      = spec_considerCovariance Pnoise S' Hc Pc.
Proof.
  intros HN.
  destruct (calculateInverse_returned M w P N HN) as (W & HW & _ & _ & HN').
  destruct (proj1 (multiply_outcomes M w) W HW) as (HrW & HcW & _ & _).
  assert (rows N = cols M ∧ cols N = cols M) as [HrN HcN] by (by rewrite HN').
  assert (inverse N = Ok (mk_matrix (cols M) (cols M) (coeff (lu_inverse N))))
    as Hinv.
  { unfold inverse. rewrite eigen_assert_true by lia. by rewrite HrN, HcN. }
  set (Pnoise := mk_matrix (cols M) (cols M) (coeff (lu_inverse N))) in *.
  destruct (mmul_compatible Pnoise (transpose W)) as (S' & HS & HrS & HcS);
    [cbn; lia|]. cbn in HrS, HcS.
  exists Pnoise, S'. split_and!; [done | | done | lia |].
  - subst Pnoise. apply mk_matrix_ext. intros i j Hi Hj.
    by rewrite coeff_mk_matrix.
  - unfold calculateCovarianceMatrixWithConsiderParameters.
    rewrite HN. unfold mbind at 1. unfold outcome_bind.
    rewrite Hinv, HW. unfold mbind at 1 2. unfold outcome_bind.
    rewrite HS. reflexivity.
Qed.

(** The two ways the products of the consider parameters end. *)
Lemma spec_considerCovariance_outcomes Pnoise (S' : matrix R) Hc Pc (n m : nat) :
  rows Pnoise = n → cols Pnoise = n → rows S' = n → cols S' = m →
  (rows Hc = m ∧ rows Pc = cols Hc ∧ cols Pc = cols Hc →
   ∃ total, spec_considerCovariance Pnoise S' Hc Pc = Ok total
            ∧ rows total = n ∧ cols total = n ∧ well_formed total)
  ∧ (¬ (rows Hc = m ∧ rows Pc = cols Hc ∧ cols Pc = cols Hc) →
     spec_considerCovariance Pnoise S' Hc Pc = Fail DimensionMismatch).
Proof.
  intros HrPn HcPn HrS HcS. unfold spec_considerCovariance, mmul, madd, eigen_assert.
  split.
  - intros (HrHc & HrPc & HcPc).
    rewrite (decide_True (P := cols S' = rows Hc)) by lia. cbn.
    rewrite (decide_True (P := cols Hc = rows Pc)) by lia. cbn.
    rewrite (decide_True (P := rows Hc = cols S')) by lia. cbn.
    rewrite (decide_True (P := cols Pc = cols Hc)) by lia. cbn.
    rewrite decide_True by lia. cbn.
    eexists. split_and!; [done | done | done | apply well_formed_mk_matrix].
  - intros Hno.
    destruct (decide (cols S' = rows Hc)); [|done]. cbn.
    destruct (decide (cols Hc = rows Pc)); [|done]. cbn.
    rewrite (decide_True (P := rows Hc = cols S')) by lia. cbn.
    destruct (decide (cols Pc = cols Hc)); [|done]. exfalso. apply Hno. lia.
Qed.

(** [calculateCovarianceMatrixWithConsiderParameters] returns exactly when
    the inverse covariance is defined and the consider matrices fit: [Hc]
    has the rows of [M] and [Pc] is square of the number of columns of [Hc].
    The result is then a well-formed square matrix of the size of the
    parameter vector; in every other case the call ends in a size
    assertion. *)
Theorem consider_covariance_outcomes M w P Hc Pc :
  ((length w = rows M ∨ cols M = 0) ∧ rows P = cols M ∧ cols P = cols M
   ∧ rows Hc = rows M ∧ rows Pc = cols Hc ∧ cols Pc = cols Hc →
   ∃ total, calculateCovarianceMatrixWithConsiderParameters M w P Hc Pc = Ok total
            ∧ rows total = cols M ∧ cols total = cols M ∧ well_formed total)
  ∧ (¬ ((length w = rows M ∨ cols M = 0) ∧ rows P = cols M ∧ cols P = cols M
        ∧ rows Hc = rows M ∧ rows Pc = cols Hc ∧ cols Pc = cols Hc) →
     calculateCovarianceMatrixWithConsiderParameters M w P Hc Pc
     = Fail DimensionMismatch).
Proof.
  destruct (calculateInverseOfUpdatedCovarianceMatrix M w P) as [N|e] eqn:HN.
  - destruct (considerCovariance_chain M w P Hc Pc N HN)
      as (Pnoise & S' & _ & HPn & HrS & HcS & ->).
    assert (rows Pnoise = cols M ∧ cols Pnoise = cols M) as [HrPn HcPn]
      by (by rewrite HPn).
    destruct (spec_considerCovariance_outcomes Pnoise S' Hc Pc (cols M) (rows M))
      as [Hok Hfail]; [done..|].
    split.
    + intros (_ & _ & _ & Hfit). by apply Hok.
    + intros Hno. apply Hfail. intros Hfit. apply Hno.
      destruct (decide ((length w = rows M ∨ cols M = 0)
                        ∧ rows P = cols M ∧ cols P = cols M)) as [Hdims|Hdims];
        [tauto|].
      by rewrite (proj2 (calculateInverse_outcomes M w P) Hdims) in HN.
  - assert (calculateCovarianceMatrixWithConsiderParameters M w P Hc Pc = Fail e)
      as -> by (unfold calculateCovarianceMatrixWithConsiderParameters; by rewrite HN).
    destruct (decide ((length w = rows M ∨ cols M = 0)
                      ∧ rows P = cols M ∧ cols P = cols M)) as [Hdims|Hdims].
    + destruct (proj1 (calculateInverse_outcomes M w P) Hdims) as (N & HN' & _).
      congruence.
    + rewrite (proj2 (calculateInverse_outcomes M w P) Hdims) in HN.
      injection HN as <-. split; [tauto | done].
Qed.

End ConsiderCovarianceMore.

(** ** Consider parameters without effect *)

Section ConsiderWithoutEffect.
Context {R : Type} `{Scalar R} `{EigenBackend R}.
Implicit Types (M P N Hc Pc Pnoise : matrix R) (w : vector R).

(** When every coefficient of the last product vanishes, the sum is the
    noise-only covariance. *)
Lemma considerCovariance_without_inflation Pnoise (SHcPc HctSt : matrix R) n :
  (∀ c : R, fadd c fzero = c) →
  Pnoise = mk_matrix n n (coeff Pnoise) →
  rows SHcPc = n → cols HctSt = n → cols SHcPc = rows HctSt →
  (∀ i j, i < n → j < n →
     dot (cols SHcPc) (λ k, coeff SHcPc i k) (λ k, coeff HctSt k j) = fzero) →
  (inflation ← mmul SHcPc HctSt; madd Pnoise inflation) = Ok Pnoise.
Proof.
  intros Hzero HPn Hr Hc Hfit Hdots.
  assert (rows Pnoise = n ∧ cols Pnoise = n) as [HrPn HcPn] by (by rewrite HPn).
  unfold mmul. rewrite eigen_assert_true by done.
  unfold mbind, outcome_bind, madd.
  rewrite eigen_assert_true by (cbn; lia).
  unfold mbind, outcome_bind. f_equal.
  etrans; [|symmetry; exact HPn]. rewrite HrPn, HcPn, Hr, Hc.
  apply mk_matrix_ext. intros i j Hi Hj.
  rewrite coeff_mk_matrix by done. by rewrite Hdots, Hzero.
Qed.

(** With a zero covariance of the consider parameters, the result is the
    inverse the backend gives for the inverse covariance [N]: the consider
    parameters add nothing.  The zero of the scalars must annihilate
    products and be neutral on the right of sums. *)
Theorem zero_consider_covariance_adds_nothing M w P Hc N :
  (∀ c : R, fadd c fzero = c) →
  (∀ c : R, fmul c fzero = fzero) →
  (∀ c : R, fmul fzero c = fzero) →
  calculateInverseOfUpdatedCovarianceMatrix M w P = Ok N →
  rows Hc = rows M →
  calculateCovarianceMatrixWithConsiderParameters M w P Hc
    (Zero (cols Hc) (cols Hc))
  = inverse N.
Proof.
  intros Hadd Hmul_r Hmul_l HN HrHc.
  destruct (considerCovariance_chain M w P Hc (Zero (cols Hc) (cols Hc)) N HN)
    as (Pnoise & S' & -> & HPn & HrS & HcS & ->).
  unfold spec_considerCovariance.
  destruct (mmul_compatible S' Hc) as (SHc & -> & HrSHc & HcSHc); [lia|].
  unfold mbind at 1. unfold outcome_bind.
  assert (mmul SHc (Zero (cols Hc) (cols Hc))
          = Ok (mk_matrix (rows SHc) (cols Hc)
                  (λ i j, dot (cols SHc) (λ k, coeff SHc i k)
                              (λ k, coeff (Zero (cols Hc) (cols Hc)) k j))))
    as ->.
  { unfold mmul. by rewrite eigen_assert_true by (cbn; lia). }
  unfold mbind at 1. unfold outcome_bind.
  destruct (mmul_compatible (transpose Hc) (transpose S'))
    as (HctSt & -> & HrHctSt & HcHctSt); [cbn; lia|]. cbn in HrHctSt, HcHctSt.
  unfold mbind at 1. unfold outcome_bind.
  apply (considerCovariance_without_inflation _ _ _ (cols M));
    [done | done | cbn; lia | lia | cbn; lia |].
  intros i j Hi Hj. cbn [cols mk_matrix].
  apply dot_vanishing; [done|]. intros k Hk.
  rewrite coeff_mk_matrix by lia.
  rewrite dot_vanishing; [apply Hmul_l | done |].
  intros k' Hk'. unfold Zero. rewrite coeff_mk_matrix by lia. apply Hmul_r.
Qed.

(** Without consider parameters ([Hc] without columns, [Pc] empty), the
    result is the inverse the backend gives for the inverse covariance [N],
    for a zero that is neutral on the right of sums. *)
Theorem no_consider_parameters_add_nothing M w P Hc Pc N :
  (∀ c : R, fadd c fzero = c) →
  calculateInverseOfUpdatedCovarianceMatrix M w P = Ok N →
  rows Hc = rows M → cols Hc = 0 → rows Pc = 0 → cols Pc = 0 →
  calculateCovarianceMatrixWithConsiderParameters M w P Hc Pc = inverse N.
Proof.
  intros Hadd HN HrHc HcHc HrPc HcPc.
  destruct (considerCovariance_chain M w P Hc Pc N HN)
    as (Pnoise & S' & -> & HPn & HrS & HcS & ->).
  unfold spec_considerCovariance.
  destruct (mmul_compatible S' Hc) as (SHc & -> & HrSHc & HcSHc); [lia|].
  unfold mbind at 1. unfold outcome_bind.
  destruct (mmul_compatible SHc Pc) as (SHcPc & -> & HrSHcPc & HcSHcPc); [lia|].
  unfold mbind at 1. unfold outcome_bind.
  destruct (mmul_compatible (transpose Hc) (transpose S'))
    as (HctSt & -> & HrHctSt & HcHctSt); [cbn; lia|]. cbn in HrHctSt, HcHctSt.
  unfold mbind at 1. unfold outcome_bind.
  apply (considerCovariance_without_inflation _ _ _ (cols M));
    [done | done | lia | lia | lia |].
  intros i j Hi Hj. apply dot_vanishing; [done|]. intros k Hk. lia.
Qed.

End ConsiderWithoutEffect.

(** ** The cross-product matrix *)

Section CrossProductFacts.
Context {R : Type} `{Scalar R} `{ScalarNeg R}.
Implicit Types (a b : Vector3d R).

(** The six assignments are in range: the function returns the matrix with
    zero diagonal and the coordinates of the vector around it. *)
Lemma getCrossProductMatrix_value a :
  getCrossProductMatrix a
  = Ok (Matrix 3 3
          [[fzero; coord_z a; fneg (coord_y a)];
           [fneg (coord_z a); fzero; coord_x a];
           [coord_y a; fneg (coord_x a); fzero]]).
Proof. reflexivity. Qed.

(** The matrix of [a] applied to the coefficients of [b] is the cross
    product [a x b], for a zero of the scalars that annihilates products and
    is neutral for sums. *)
Theorem cross_product_matrix_gives_cross_product a b :
  (∀ c : R, fmul fzero c = fzero) →
  (∀ c : R, fadd fzero c = c) →
  (∀ c : R, fadd c fzero = c) →
  ∃ C, getCrossProductMatrix a = Ok C
       ∧ mvmul C (coefficients b) = Ok (spec_cross a b).
Proof.
  intros Hmul Hadd_l Hadd_r. eexists. split; [apply getCrossProductMatrix_value|].
  unfold mvmul, spec_cross. rewrite eigen_assert_true by done.
  unfold mbind, outcome_bind, mk_vector, dot. cbn.
  by rewrite !Hmul, !Hadd_l, !Hadd_r.
Qed.

(** The matrix is skew-symmetric: its transpose is its negation, for a minus
    that is an involution and leaves zero as it is. *)
Theorem cross_product_matrix_skew_symmetric a :
  (∀ c : R, fneg (fneg c) = c) →
  fneg fzero = fzero →
  ∃ C, getCrossProductMatrix a = Ok C ∧ transpose C = negated C.
Proof.
  intros Hinvolution Hzero. eexists. split; [apply getCrossProductMatrix_value|].
  unfold transpose, negated, mk_matrix. cbn.
  by rewrite !Hinvolution, !Hzero.
Qed.

End CrossProductFacts.

(** * The further properties on concrete inputs *)

Section FurtherEvaluations.
Import IntegerInstance.
Open Scope Z_scope.

(** The cross product of the model is the one of the textbook. *)
Example spec_cross_on_integers (a b : Vector3d Z) :
  spec_cross a b
  = [coord_y a * coord_z b - coord_z a * coord_y b;
     coord_z a * coord_x b - coord_x a * coord_z b;
     coord_x a * coord_y b - coord_y a * coord_x b].
Proof. unfold spec_cross. cbn. repeat f_equal; ring. Qed.

Lemma weighting_outcomes_witness :
  ∃ W, multiplyInformationMatrixByDiagonalWeightMatrix
         (of_rows 3 2 [[1; 0]; [0; 1]; [1; 1]]) [2; 3; 4] = Ok W
       ∧ rows W = 3%nat ∧ cols W = 2%nat ∧ well_formed W.
Proof.
  eexists. split; [reflexivity|].
  destruct (proj1 (weighting_outcomes (of_rows 3 2 [[1; 0]; [0; 1]; [1; 1]]) [2; 3; 4])
              _ eq_refl) as (Hr & Hc & Hwf & _).
  exact (conj Hr (conj Hc Hwf)).
Defined.

Lemma unit_weights_leave_matrix_witness :
  multiplyInformationMatrixByDiagonalWeightMatrix
    (of_rows 3 2 [[1; 0]; [0; 1]; [1; 1]]) (Constant 3 1)
  = Ok (of_rows 3 2 [[1; 0]; [0; 1]; [1; 1]]).
Proof.
  refine (unit_weights_leave_matrix (of_rows 3 2 [[1; 0]; [0; 1]; [1; 1]]) _ _).
  - split; [reflexivity | repeat constructor].
  - intros a. apply Z.mul_1_r.
Defined.



Lemma inverse_covariance_outcomes_witness :
  (∃ N, calculateInverseOfUpdatedCovarianceMatrix
          (of_rows 3 2 [[1; 0]; [0; 1]; [1; 1]]) [2; 3; 4]
          (of_rows 2 2 [[5; 1]; [1; 7]]) = Ok N
        ∧ rows N = 2%nat ∧ cols N = 2%nat ∧ well_formed N)
  ∧ calculateInverseOfUpdatedCovarianceMatrix
      (of_rows 3 2 [[1; 0]; [0; 1]; [1; 1]]) [2; 3; 4] (of_rows 1 1 [[5]])
    = Fail DimensionMismatch.
Proof.
  split.
  - apply (proj1 (inverse_covariance_outcomes
                    (of_rows 3 2 [[1; 0]; [0; 1]; [1; 1]]) [2; 3; 4]
                    (of_rows 2 2 [[5; 1]; [1; 7]]))).
    split_and!; [left; reflexivity | reflexivity | reflexivity].
  - apply (proj2 (inverse_covariance_outcomes
                    (of_rows 3 2 [[1; 0]; [0; 1]; [1; 1]]) [2; 3; 4]
                    (of_rows 1 1 [[5]]))).
    cbn. lia.
Defined.

Lemma condition_number_of_information_matrix_witness :
  getConditionNumberOfInformationMatrix (of_rows 2 2 [[6; 0]; [0; 3]]) = Ok 2
  ∧ getConditionNumberOfInformationMatrix (Matrix (R:=Z) 3 0 [])
    = Fail IndexOutOfRange.
Proof.
  split.
  - exact (proj1 (condition_number_of_information_matrix
                    (of_rows 2 2 [[6; 0]; [0; 3]]))
             ltac:(cbn; lia) ltac:(cbn; lia)).
  - apply (proj2 (condition_number_of_information_matrix (Matrix 3 0 []))).
    right. reflexivity.
Defined.

Lemma solver_rejects_right_hand_side_after_check_witness :
  solveSystemOfEquationsWithSvd (of_rows 1 1 [[1]]) [1; 2] true 0 []
  = (Fail DimensionMismatch, [ConditionNumberWarning 1]).
Proof.
  exact (solver_rejects_right_hand_side_after_check
           (of_rows 1 1 [[1]]) [1; 2] true 0 1 []
           ltac:(cbn; lia) eq_refl).
Defined.

Lemma solver_fails_on_empty_matrix_with_check_witness :
  solveSystemOfEquationsWithSvd (Matrix 0 0 []) [] true 0 []
  = (Fail IndexOutOfRange, []).
Proof.
  apply (solver_fails_on_empty_matrix_with_check (Matrix 0 0 []) [] 0 []).
  left. reflexivity.
Defined.

Lemma adjustment_rejects_dimensions_witness :
  performLeastSquaresAdjustmentFromInformationMatrix
    (of_rows 3 2 [[1; 0]; [0; 1]; [1; 1]]) [1; 2] [1; 1; 1] (Zero 2 2) [] true 0 []
  = (Fail DimensionMismatch, []).
Proof.
  apply (adjustment_rejects_dimensions
           (of_rows 3 2 [[1; 0]; [0; 1]; [1; 1]]) [1; 2] [1; 1; 1] (Zero 2 2)).
  cbn. lia.
Defined.

Lemma adjustment_returned_witness :
  calculateInverseOfUpdatedCovarianceMatrix
    (of_rows 3 2 [[1; 0]; [0; 1]; [1; 1]]) [1; 1; 1] (Zero 2 2)
  = Ok (of_rows 2 2 [[2; 1]; [1; 2]]).
Proof.
  exact (proj1 (adjustment_returned
                  (of_rows 3 2 [[1; 0]; [0; 1]; [1; 1]]) [1; 2; 3] [1; 1; 1]
                  (Zero 2 2) [] true 0 [] [4; 5] (of_rows 2 2 [[2; 1]; [1; 2]])
                  [ConditionNumberWarning 1] eq_refl)).
Defined.

Lemma unweighted_adjustment_is_ordinary_least_squares_witness :
  ∃ N g,
    mmul (transpose (of_rows 3 2 [[1; 0]; [0; 1]; [1; 1]]))
         (of_rows 3 2 [[1; 0]; [0; 1]; [1; 1]]) = Ok N
    ∧ mvmul (transpose (of_rows 3 2 [[1; 0]; [0; 1]; [1; 1]])) [1; 2; 3] = Ok g
    ∧ ∀ log,
        (performLeastSquaresAdjustmentFromInformationMatrix_unweighted
           (of_rows 3 2 [[1; 0]; [0; 1]; [1; 1]]) [1; 2; 3] true (10 ^ 8) log).1
        = Ok (jacobi_solve N g, N).
Proof.
  apply (unweighted_adjustment_is_ordinary_least_squares
           (of_rows 3 2 [[1; 0]; [0; 1]; [1; 1]]) [1; 2; 3] true (10 ^ 8)).
  - intros a. apply Z.mul_1_r.
  - intros a. apply Z.mul_1_l.
  - intros a. apply Z.add_0_l.
  - reflexivity.
  - cbn. lia.
Defined.

Lemma polynomial_fit_solves_normal_equations_witness :
  ∃ N g c,
    mmul (transpose (spec_polynomialInformationMatrix [0; 1; 2] [0; 1]))
         (spec_polynomialInformationMatrix [0; 1; 2] [0; 1]) = Ok N
    ∧ mvmul (transpose (spec_polynomialInformationMatrix [0; 1; 2] [0; 1])) [1; 3; 5]
      = Ok g
    ∧ getLeastSquaresPolynomialFit [0; 1; 2] [1; 3; 5] [0; 1] []
      = (Ok (jacobi_solve N g),
         if defaultCheckConditionNumber && fgt c defaultMaximumAllowedConditionNumber
         then [] ++ [ConditionNumberWarning c] else []).
Proof.
  apply (polynomial_fit_solves_normal_equations [0; 1; 2] [1; 3; 5] [0; 1] []).
  - intros a. apply Z.mul_1_r.
  - intros a. apply Z.mul_1_l.
  - intros a. apply Z.add_0_l.
  - reflexivity.
  - cbn. lia.
Defined.

Lemma polynomial_fit_fails_on_long_samples_witness :
  getLeastSquaresPolynomialFit [2; 3] [1] [0] []
  = (Fail IndexOutOfRange, [] ++ [PolynomialFitSizeError]).
Proof.
  apply (polynomial_fit_fails_on_long_samples [2; 3] [1] [0] []); cbn; lia.
Defined.


Lemma consider_covariance_outcomes_witness :
  (∃ total,
     calculateCovarianceMatrixWithConsiderParameters
       (of_rows 3 2 [[1; 0]; [0; 1]; [1; 1]]) [1; 1; 1] (Zero 2 2)
       (of_rows 3 1 [[1]; [0]; [2]]) (of_rows 1 1 [[4]]) = Ok total
     ∧ rows total = 2%nat ∧ cols total = 2%nat ∧ well_formed total)
  ∧ calculateCovarianceMatrixWithConsiderParameters
      (of_rows 3 2 [[1; 0]; [0; 1]; [1; 1]]) [1; 1; 1] (Zero 2 2)
      (of_rows 2 1 [[1]; [0]]) (of_rows 1 1 [[4]])
    = Fail DimensionMismatch.
Proof.
  split.
  - apply (proj1 (consider_covariance_outcomes
                    (of_rows 3 2 [[1; 0]; [0; 1]; [1; 1]]) [1; 1; 1] (Zero 2 2)
                    (of_rows 3 1 [[1]; [0]; [2]]) (of_rows 1 1 [[4]]))).
    split_and!; [left; reflexivity | reflexivity..].
  - apply (proj2 (consider_covariance_outcomes
                    (of_rows 3 2 [[1; 0]; [0; 1]; [1; 1]]) [1; 1; 1] (Zero 2 2)
                    (of_rows 2 1 [[1]; [0]]) (of_rows 1 1 [[4]]))).
    cbn. lia.
Defined.

Lemma zero_consider_covariance_adds_nothing_witness :
  calculateCovarianceMatrixWithConsiderParameters
    (of_rows 3 2 [[1; 0]; [0; 1]; [1; 1]]) [1; 1; 1] (Zero 2 2)
    (of_rows 3 1 [[1]; [0]; [2]]) (Zero 1 1)
  = inverse (of_rows 2 2 [[2; 1]; [1; 2]]).
Proof.
  refine (zero_consider_covariance_adds_nothing
            (of_rows 3 2 [[1; 0]; [0; 1]; [1; 1]]) [1; 1; 1] (Zero 2 2)
            (of_rows 3 1 [[1]; [0]; [2]]) (of_rows 2 2 [[2; 1]; [1; 2]])
            _ _ _ _ _).
  - intros c. apply Z.add_0_r.
  - intros c. apply Z.mul_0_r.
  - intros c. apply Z.mul_0_l.
  - reflexivity.
  - reflexivity.
Defined.

Lemma no_consider_parameters_add_nothing_witness :
  calculateCovarianceMatrixWithConsiderParameters
    (of_rows 3 2 [[1; 0]; [0; 1]; [1; 1]]) [1; 1; 1] (Zero 2 2)
    (Matrix 3 0 []) (Matrix 0 0 [])
  = inverse (of_rows 2 2 [[2; 1]; [1; 2]]).
Proof.
  refine (no_consider_parameters_add_nothing
            (of_rows 3 2 [[1; 0]; [0; 1]; [1; 1]]) [1; 1; 1] (Zero 2 2)
            (Matrix 3 0 []) (Matrix 0 0 []) (of_rows 2 2 [[2; 1]; [1; 2]])
            _ _ _ _ _ _).
  - intros c. apply Z.add_0_r.
  - reflexivity.
  - reflexivity.
  - reflexivity.
  - reflexivity.
  - reflexivity.
Defined.

Lemma cross_product_matrix_gives_cross_product_witness :
  ∃ C, getCrossProductMatrix {| coord_x := 1; coord_y := 2; coord_z := 3 |} = Ok C
       ∧ mvmul C (coefficients {| coord_x := 4; coord_y := 5; coord_z := 6 |})
         = Ok (spec_cross {| coord_x := 1; coord_y := 2; coord_z := 3 |}
                          {| coord_x := 4; coord_y := 5; coord_z := 6 |}).
Proof.
  apply (cross_product_matrix_gives_cross_product
           {| coord_x := 1; coord_y := 2; coord_z := 3 |}
           {| coord_x := 4; coord_y := 5; coord_z := 6 |}).
  - intros c. apply Z.mul_0_l.
  - intros c. apply Z.add_0_l.
  - intros c. apply Z.add_0_r.
Defined.

Lemma cross_product_matrix_skew_symmetric_witness :
  ∃ C, getCrossProductMatrix {| coord_x := 1; coord_y := 2; coord_z := 3 |} = Ok C
       ∧ transpose C = negated C.
Proof.
  apply (cross_product_matrix_skew_symmetric
           {| coord_x := 1; coord_y := 2; coord_z := 3 |}).
  - intros c. apply Z.opp_involutive.
  - reflexivity.
Defined.

(** The cross product of (1, 2, 3) and (4, 5, 6) through the matrix. *)
Example cross_product_of_two_vectors :
  (C ← getCrossProductMatrix {| coord_x := 1; coord_y := 2; coord_z := 3 |};
   mvmul C [4; 5; 6])
  = Ok [-3; 6; -3].
Proof. reflexivity. Qed.

End FurtherEvaluations.

(** ** The angle between two vectors *)

Section AngleFacts.
Context {R : Type} `{Scalar R} `{ScalarNeg R} `{ScalarOrder R} `{EigenNormalization R}.
Implicit Types (u v : vector R).

Lemma vector_dot_normalized u v :
  length u = length v →
  vector_dot (normalized u) (normalized v)
  = Ok (dot (length u) (vcoeff (normalized u)) (vcoeff (normalized v))).
Proof.
  intros Huv. unfold vector_dot.
  rewrite eigen_assert_true by (unfold normalized; by rewrite !length_mk_vector).
  unfold normalized at 1. by rewrite length_mk_vector.
Qed.

(** The two functions throw exactly for vectors of different sizes, and
    after the size test the dot product of the normalised vectors meets no
    assertion: for equal sizes a value is returned. *)
Theorem angle_functions_throw_exactly_on_size_mismatch u v :
  (length u ≠ length v →
   computeCosineOfAngleBetweenVectors u v = RuntimeError
   ∧ computeAngleBetweenVectors u v = RuntimeError)
  ∧ (length u = length v →
     ∃ c, computeCosineOfAngleBetweenVectors u v = Returned c
          ∧ computeAngleBetweenVectors u v = Returned (facos c)).
Proof.
  unfold computeAngleBetweenVectors, computeCosineOfAngleBetweenVectors. split.
  - intros Huv. by rewrite decide_True.
  - intros Huv. rewrite decide_False by (by intros ?).
    rewrite vector_dot_normalized by done.
    repeat case_match; by eexists.
Qed.

(** For comparisons that are the two directions of a total order in which
    minus one is below one, a cosine that is returned lies between minus one
    and one, whatever the normalisation gives: the arccosine is taken of a
    number in its domain. *)
Theorem cosine_of_angle_within_bounds u v c :
  (∀ a b : R, fge a b = fle b a) →
  (∀ a b : R, fle a b = true ∨ fle b a = true) →
  fle (fneg fone) fone = true →
  computeCosineOfAngleBetweenVectors u v = Returned c →
  fge c (fneg fone) = true ∧ fle c fone = true.
Proof.
  intros Hdual Htotal Hones. unfold computeCosineOfAngleBetweenVectors.
  assert (∀ a : R, fle a a = true) as Hrefl.
  { intros a. by destruct (Htotal a a). }
  destruct (decide _); [done|].
  destruct (vector_dot _ _) as [d|]; [|done].
  destruct (fge d fone) eqn:Hge.
  - intros [= <-]. by rewrite Hdual, Hones, Hrefl.
  - destruct (fle d (fneg fone)) eqn:Hle.
    + intros [= <-]. by rewrite Hdual, Hrefl, Hones.
    + intros [= <-]. rewrite Hdual in Hge. rewrite Hdual. split.
      * destruct (Htotal d (fneg fone)); congruence.
      * destruct (Htotal d fone); congruence.
Qed.

End AngleFacts.

Section AngleEvaluations.
Import IntegerInstance.
Open Scope Z_scope.

Lemma angle_functions_throw_exactly_on_size_mismatch_witness :
  computeCosineOfAngleBetweenVectors [1; 0] [1; 0; 0] = RuntimeError
  ∧ ∃ c, computeCosineOfAngleBetweenVectors [1; 0; 0] [0; 1; 0] = Returned c.
Proof.
  split.
  - apply (proj1 (angle_functions_throw_exactly_on_size_mismatch [1; 0] [1; 0; 0])).
    cbn. lia.
  - destruct (proj2 (angle_functions_throw_exactly_on_size_mismatch
                       [1; 0; 0] [0; 1; 0]) eq_refl) as (c & Hc & _).
    exists c. exact Hc.
Defined.

Lemma cosine_of_angle_within_bounds_witness :
  fge 1 (fneg fone) = true ∧ fle 1 fone = true.
Proof.
  refine (cosine_of_angle_within_bounds [3; 0; 0] [2; 0; 0] 1 _ _ _ _).
  - intros a b. cbn. apply Z.geb_leb.
  - intros a b. cbn. destruct (Z.leb_spec a b) as [|Hlt]; [by left | right].
    apply Z.leb_le. lia.
  - reflexivity.
  - reflexivity.
Defined.

End AngleEvaluations.
